(** * browser_use.dom.service: reconstruction of the DOM tree

    A shallow embedding of [DomService._parse_node], of the assembly loop of
    [DomService._build_dom_tree], of [DomService._create_selector_map] and of
    [DomService.get_clickable_elements], together with the properties of
    these functions.

    The value returned by [page.evaluate] is a JSON document; it is the
    input of the model.  Python objects are mutable and shared, so decoded
    nodes live in a store ([heap]) and are referred to by address: the
    [node_map] dictionary and the [children] lists hold addresses. *)

From Stdlib Require Import ZArith String.
From stdpp Require Import base option list gmap strings pretty.

Set Warnings "-register-all".
Local Open Scope string_scope.
Local Open Scope list_scope.
Local Open Scope nat_scope.

(** ** JSON values, as Python receives them *)

(** Numbers are the integers the producer emits (identifiers, handles and
    pixel values).  A [JObj] lists its items in iteration order, which for a
    Python [dict] is insertion order. *)
Inductive json : Type :=
  | JNull
  | JBool (b : bool)
  | JNum (n : Z)
  | JStr (s : string)
  | JArr (xs : list json)
  | JObj (kvs : list (string * json)).

(** ** Outcomes of running Python code *)

Inductive exn : Type :=
  | KeyError (k : string)
  | TypeError
  | AttributeError
  | ValueError (msg : string)
  | ValidationError
  | RecursionError.

(** [Return] is normal termination, [Raise] an exception that reaches the
    caller.  [Unmodelled] marks what the model does not follow: [str] of a
    list or of a dict (it renders their [repr]), and a reference to an
    address outside the store, which no run produces. *)
Inductive outcome (A : Type) : Type :=
  | Return (a : A)
  | Raise (e : exn)
  | Unmodelled.
Arguments Return {A} a.
Arguments Raise {A} e.
Arguments Unmodelled {A}.

#[global] Instance outcome_ret : MRet outcome := λ A a, Return a.
#[global] Instance outcome_bind : MBind outcome := λ A B f m,
  match m with
  | Return a => f a
  | Raise e => Raise e
  | Unmodelled => Unmodelled
  end.

Definition returns {A} (m : outcome A) : Prop := ∃ a, m = Return a.
Definition raises {A} (m : outcome A) : Prop := ∃ e, m = Raise e.

(** ** The Python operations the service uses *)

(** [d.get(k)] / [k in d] on the items of a dict. *)
Fixpoint dict_get (k : string) (kvs : list (string * json)) : option json :=
  match kvs with
  | [] => None
  | (k', v) :: rest => if bool_decide (k' = k) then Some v else dict_get k rest
  end.

(** [d.get(k, default)]. *)
Definition dict_get_default (k : string) (default : json)
    (kvs : list (string * json)) : json :=
  match dict_get k kvs with Some v => v | None => default end.

(** [del d[k]], used to state that two fields are decoded independently. *)
Definition dict_delete (k : string) (kvs : list (string * json))
    : list (string * json) :=
  filter (λ kv, kv.1 ≠ k) kvs.

(** Truth value of a JSON value ([not v] is its negation). *)
Definition truthy (v : json) : bool :=
  match v with
  | JNull => false
  | JBool b => b
  | JNum n => negb (n =? 0)%Z
  | JStr s => negb (bool_decide (s = EmptyString))
  | JArr xs => match xs with [] => false | _ => true end
  | JObj kvs => match kvs with [] => false | _ => true end
  end.

(** [v[k]] with a string key. *)
Definition py_getitem (v : json) (k : string) : outcome json :=
  match v with
  | JObj kvs =>
      match dict_get k kvs with
      | Some x => Return x
      | None => Raise (KeyError k)
      end
  | _ => Raise TypeError
  end.

(** [str(v)]. *)
Definition py_str (v : json) : outcome string :=
  match v with
  | JStr s => Return s
  | JNum n => Return (pretty n)
  | JBool true => Return "True"
  | JBool false => Return "False"
  | JNull => Return "None"
  | JArr _ | JObj _ => Unmodelled
  end.

(** The items a [for] loop over [v] visits. *)
Definition chars (s : string) : list json :=
  (λ c, JStr (String c EmptyString)) <$> list_ascii_of_string s.

Definition py_iter (v : json) : outcome (list json) :=
  match v with
  | JArr xs => Return xs
  | JStr s => Return (chars s)
  | JObj kvs => Return ((λ kv, JStr kv.1) <$> kvs)
  | JNull | JBool _ | JNum _ => Raise TypeError
  end.

(** ** The node classes *)

(** Addresses of node objects. *)
Abbreviation addr := nat (only parsing).

(** Modelled from the spec: [Coordinates], [CoordinateSet] and
    [ViewportInfo] are declared in [browser_use.dom.views] and
    [browser_use.dom.history_tree_processor.view], which are not among the
    sources.  A point is a pair of numeric coordinates; a geometry record has
    four corners, a center and a numeric width and height; the viewport state
    has four numeric fields.  A constructor given a value that is not a
    number fails with [ValidationError]. *)
Record Coordinates : Type := { x : Z; y : Z }.

Record CoordinateSet : Type := {
  top_left : Coordinates;
  top_right : Coordinates;
  bottom_left : Coordinates;
  bottom_right : Coordinates;
  center : Coordinates;
  width : Z;
  height : Z;
}.

Record ViewportInfo : Type := {
  scroll_x : Z;
  scroll_y : Z;
  viewport_width : Z;
  viewport_height : Z;
}.

(** Modelled from the spec: the node classes come from
    [browser_use.dom.views] as well.  Their constructors store the values
    they are given; [children] holds references to nodes and [parent] is an
    optional reference.  (The fields [is_visible] and [parent] of a text node
    are named [text_is_visible] and [text_parent] here.) *)
Record DOMElementNode : Type := {
  tag_name : json;
  xpath : json;
  attributes : json;
  children : list addr;
  is_visible : json;
  is_interactive : json;
  is_top_element : json;
  highlight_index : json;
  shadow_root : json;
  parent : option addr;
  viewport_coordinates : option CoordinateSet;
  page_coordinates : option CoordinateSet;
  viewport_info : option ViewportInfo;
}.

Record DOMTextNode : Type := {
  text : json;
  text_is_visible : json;
  text_parent : option addr;
}.

Inductive DOMBaseNode : Type :=
  | Element (e : DOMElementNode)
  | Text (t : DOMTextNode).

Definition node_parent (n : DOMBaseNode) : option addr :=
  match n with
  | Element e => parent e
  | Text t => text_parent t
  end.

Definition node_children (n : DOMBaseNode) : list addr :=
  match n with
  | Element e => children e
  | Text _ => []
  end.

(** ** The record decoder: [DomService._parse_node] *)

Definition as_number (v : json) : outcome Z :=
  match v with
  | JNum n => Return n
  | _ => Raise ValidationError
  end.

(** [Coordinates] called with the items of [v] as keyword arguments: [v]
    has to be a mapping, and it has to supply [x] and [y]. *)
Definition make_coordinates (v : json) : outcome Coordinates :=
  match v with
  | JObj kvs =>
      match dict_get "x" kvs, dict_get "y" kvs with
      | Some vx, Some vy =>
          px ← as_number vx;
          py ← as_number vy;
          Return {| x := px; y := py |}
      | _, _ => Raise ValidationError
      end
  | _ => Raise TypeError
  end.

(** The call of [CoordinateSet]: its arguments, the five points and then
    [c['width']] and [c['height']], are evaluated from left to right, then
    the constructor runs. *)
Definition parse_coordinate_set (c : json) : outcome CoordinateSet :=
  tl ← py_getitem c "topLeft" ≫= make_coordinates;
  tr ← py_getitem c "topRight" ≫= make_coordinates;
  bl ← py_getitem c "bottomLeft" ≫= make_coordinates;
  br ← py_getitem c "bottomRight" ≫= make_coordinates;
  ce ← py_getitem c "center" ≫= make_coordinates;
  vw ← py_getitem c "width";
  vh ← py_getitem c "height";
  w ← as_number vw;
  h ← as_number vh;
  Return {| top_left := tl; top_right := tr; bottom_left := bl;
            bottom_right := br; center := ce; width := w; height := h |}.

Definition parse_viewport_info (c : json) : outcome ViewportInfo :=
  vx ← py_getitem c "scrollX";
  vy ← py_getitem c "scrollY";
  vw ← py_getitem c "width";
  vh ← py_getitem c "height";
  sx ← as_number vx;
  sy ← as_number vy;
  w ← as_number vw;
  h ← as_number vh;
  Return {| scroll_x := sx; scroll_y := sy;
            viewport_width := w; viewport_height := h |}.

(** [if k in node_data: field = parse(node_data[k])], the field being
    [None] before. *)
Definition parse_optional {A} (k : string) (parse : json → outcome A)
    (kvs : list (string * json)) : outcome (option A) :=
  match dict_get k kvs with
  | Some c => a ← parse c; Return (Some a)
  | None => Return None
  end.

Definition is_text_kind (kvs : list (string * json)) : bool :=
  match dict_get "type" kvs with
  | Some (JStr s) => bool_decide (s = "TEXT_NODE")
  | _ => false
  end.

Definition parse_text (kvs : list (string * json)) : outcome DOMTextNode :=
  vt ← py_getitem (JObj kvs) "text";
  vv ← py_getitem (JObj kvs) "isVisible";
  Return {| text := vt; text_is_visible := vv; text_parent := None |}.

Definition parse_element (kvs : list (string * json))
    : outcome DOMElementNode :=
  vc ← parse_optional "viewportCoordinates" parse_coordinate_set kvs;
  pc ← parse_optional "pageCoordinates" parse_coordinate_set kvs;
  vi ← parse_optional "viewport" parse_viewport_info kvs;
  tag ← py_getitem (JObj kvs) "tagName";
  xp ← py_getitem (JObj kvs) "xpath";
  Return {|
    tag_name := tag;
    xpath := xp;
    attributes := dict_get_default "attributes" (JObj []) kvs;
    children := [];
    is_visible := dict_get_default "isVisible" (JBool false) kvs;
    is_interactive := dict_get_default "isInteractive" (JBool false) kvs;
    is_top_element := dict_get_default "isTopElement" (JBool false) kvs;
    highlight_index := dict_get_default "highlightIndex" JNull kvs;
    shadow_root := dict_get_default "shadowRoot" (JBool false) kvs;
    parent := None;
    viewport_coordinates := vc;
    page_coordinates := pc;
    viewport_info := vi;
  |}.

(** The decoder returns the node, or [None], and the raw [children] value. *)
Definition _parse_node (node_data : json)
    : outcome (option DOMBaseNode * json) :=
  if negb (truthy node_data) then Return (None, JArr [])
  else
    match node_data with
    | JObj kvs =>
        if is_text_kind kvs then
          t ← parse_text kvs;
          Return (Some (Text t), JArr [])
        else
          e ← parse_element kvs;
          Return (Some (Element e), dict_get_default "children" (JArr []) kvs)
    | _ => Raise AttributeError
    end.

(** ** The tree assembler: [DomService._build_dom_tree] *)

(** What the two [print] diagnostics of the loop write. *)
Inductive diagnostic : Type :=
  | NodeIsNone (id : string) (node_data : json)
  | ChildNotFound (child_id : string).

(** The store of node objects, the [node_map] dictionary and the output
    written so far.  A node's address is its position in [heap]. *)
Record state : Type := {
  heap : list DOMBaseNode;
  node_map : gmap string addr;
  printed : list diagnostic;
}.

Definition initial_state : state :=
  {| heap := []; node_map := ∅; printed := [] |}.

Definition print (d : diagnostic) (st : state) : state :=
  {| heap := heap st; node_map := node_map st; printed := printed st ++ [d] |}.

(** [node_map[id] = node], for the node object [_parse_node] has just
    created. *)
Definition store_node (id : string) (n : DOMBaseNode) (st : state) : state :=
  {| heap := heap st ++ [n];
     node_map := <[id := length (heap st)]> (node_map st);
     printed := printed st |}.

Definition append_child (c : addr) (e : DOMElementNode) : DOMElementNode :=
  {| tag_name := tag_name e; xpath := xpath e; attributes := attributes e;
     children := children e ++ [c];
     is_visible := is_visible e; is_interactive := is_interactive e;
     is_top_element := is_top_element e;
     highlight_index := highlight_index e; shadow_root := shadow_root e;
     parent := parent e;
     viewport_coordinates := viewport_coordinates e;
     page_coordinates := page_coordinates e;
     viewport_info := viewport_info e |}.

(** [node_map[id].children.append(child_node)]. *)
Definition attach (id : string) (child_node : addr) (st : state)
    : outcome state :=
  match node_map st !! id with
  | None => Raise (KeyError id)
  | Some a =>
      match heap st !! a with
      | Some (Element e) =>
          Return {| heap := <[a := Element (append_child child_node e)]> (heap st);
                    node_map := node_map st;
                    printed := printed st |}
      | Some (Text _) => Raise AttributeError
      | None => Unmodelled
      end
  end.

(** A sequential [for] loop whose body may raise. *)
Fixpoint for_each {A S : Type} (body : S → A → outcome S) (xs : list A)
    (st : S) : outcome S :=
  match xs with
  | [] => Return st
  | x :: rest => st' ← body st x; for_each body rest st'
  end.

(** The body of the inner loop, lines 94 to 101: the child is looked up
    first, the membership test comes after. *)
Definition attach_child (id : string) (st : state) (_child_id : json)
    : outcome state :=
  child_id ← py_str _child_id;
  match node_map st !! child_id with
  | None => Raise (KeyError child_id)
  | Some child_node =>
      if negb (bool_decide (is_Some (node_map st !! child_id))) then
        Return (print (ChildNotFound child_id) st)
      else attach id child_node st
  end.

(** The body of the outer loop, lines 84 to 101. *)
Definition process_entry (st : state) (entry : string * json)
    : outcome state :=
  let id := entry.1 in
  let node_data := entry.2 in
  '(node, children_ids) ← _parse_node node_data;
  match node with
  | None => Return (print (NodeIsNone id node_data) st)
  | Some n =>
      ids ← py_iter children_ids;
      for_each (attach_child id) ids (store_node id n st)
  end.

(** [d.items()]. *)
Definition py_items (v : json) : outcome (list (string * json)) :=
  match v with
  | JObj kvs => Return kvs
  | _ => Raise AttributeError
  end.

Definition assemble (items : list (string * json)) : outcome state :=
  for_each process_entry items initial_state.

(** The root: [node_map[str(js_root_id)]], which has to be an element. *)
Definition resolve_root (js_root_id : json) (st : state) : outcome addr :=
  root_id ← py_str js_root_id;
  match node_map st !! root_id with
  | None => Raise (KeyError root_id)
  | Some a =>
      match heap st !! a with
      | Some (Element _) => Return a
      | Some (Text _) => Raise (ValueError "Failed to parse HTML to dictionary")
      | None => Unmodelled
      end
  end.

(** The function from the result of [page.evaluate] on.  It returns the root
    object, that is its address and the store it lives in. *)
Definition _build_dom_tree (eval_page : json) : outcome (state * addr) :=
  js_node_map ← py_getitem eval_page "map";
  js_root_id ← py_getitem eval_page "rootId";
  items ← py_items js_node_map;
  st ← assemble items;
  html_to_dict ← resolve_root js_root_id st;
  Return (st, html_to_dict).

(** ** The handle index: [DomService._create_selector_map] *)

(** Keys of the selector map: a handle that can be hashed is an integer
    ([True] and [False] being [1] and [0]) or a string. *)
Definition handle_key (v : json) : option (Z + string) :=
  match v with
  | JNum n => Some (inl n)
  | JBool b => Some (inl (Z.b2z b))
  | JStr s => Some (inr s)
  | JNull | JArr _ | JObj _ => None
  end.

(** [if node.highlight_index is not None:
       selector_map[node.highlight_index] = node]. *)
Definition record_handle (node : addr) (e : DOMElementNode)
    (selector_map : gmap (Z + string) addr) : outcome (gmap (Z + string) addr) :=
  match highlight_index e with
  | JNull => Return selector_map
  | v =>
      match handle_key v with
      | Some key => Return (<[key := node]> selector_map)
      | None => Raise TypeError
      end
  end.

(** [process_node], with the number of frames the interpreter still
    allows. *)
Fixpoint process_node (depth : nat) (h : list DOMBaseNode) (node : addr)
    (selector_map : gmap (Z + string) addr)
    : outcome (gmap (Z + string) addr) :=
  match depth with
  | O => Raise RecursionError
  | S depth' =>
      match h !! node with
      | Some (Element e) =>
          selector_map' ← record_handle node e selector_map;
          for_each (λ m child, process_node depth' h child m)
                   (children e) selector_map'
      | Some (Text _) => Return selector_map
      | None => Unmodelled
      end
  end.

Definition _create_selector_map (recursion_limit : nat)
    (h : list DOMBaseNode) (element_tree : addr)
    : outcome (gmap (Z + string) addr) :=
  process_node recursion_limit h element_tree ∅.

Record DOMState : Type := {
  element_tree : addr;
  selector_map : gmap (Z + string) addr;
}.

(** [DomService.get_clickable_elements]. *)
Definition get_clickable_elements (recursion_limit : nat) (eval_page : json)
    : outcome (state * DOMState) :=
  '(st, root) ← _build_dom_tree eval_page;
  m ← _create_selector_map recursion_limit (heap st) root;
  Return (st, {| element_tree := root; selector_map := m |}).

(** ** The producer output of the specification's example *)

Definition body_record : json :=
  JObj [("tagName", JStr "body"); ("xpath", JStr "/body");
        ("children", JArr [JNum 1; JNum 2])].
Definition hi_record : json :=
  JObj [("type", JStr "TEXT_NODE"); ("text", JStr "hi");
        ("isVisible", JBool true)].
Definition div_record : json :=
  JObj [("tagName", JStr "div"); ("xpath", JStr "/body/div");
        ("isInteractive", JBool true); ("highlightIndex", JNum 0);
        ("children", JArr [])].

(** The entries in the order the specification writes them, root first. *)
Definition example_root_first : json :=
  JObj [("map", JObj [("0", body_record); ("1", hi_record); ("2", div_record)]);
        ("rootId", JStr "0")].

(** The same entries, children before their parent. *)
Definition example_bottom_up : json :=
  JObj [("map", JObj [("1", hi_record); ("2", div_record); ("0", body_record)]);
        ("rootId", JStr "0")].

(** ** What a full geometry sub-record is *)

(** [v] is the point [p]: a mapping with exactly the two numeric fields [x]
    and [y], in either order. *)
Definition is_point (v : json) (p : Coordinates) : Prop :=
  ∃ kvs, v = JObj kvs ∧ kvs ≡ₚ [("x", JNum (x p)); ("y", JNum (y p))].

Definition has_point (k : string) (kvs : list (string * json))
    (p : Coordinates) : Prop :=
  ∃ v, dict_get k kvs = Some v ∧ is_point v p.

(** [c] is a full geometry sub-record whose values are those of [cs]. *)
Definition full_coordinates (c : json) (cs : CoordinateSet) : Prop :=
  ∃ kvs, c = JObj kvs ∧
    has_point "topLeft" kvs (top_left cs) ∧
    has_point "topRight" kvs (top_right cs) ∧
    has_point "bottomLeft" kvs (bottom_left cs) ∧
    has_point "bottomRight" kvs (bottom_right cs) ∧
    has_point "center" kvs (center cs) ∧
    dict_get "width" kvs = Some (JNum (width cs)) ∧
    dict_get "height" kvs = Some (JNum (height cs)).

(** The sub-record under [k] is absent, or it decodes. *)
Definition optional_ok {A} (k : string) (parse : json → outcome A)
    (kvs : list (string * json)) : Prop :=
  returns (parse_optional k parse kvs).

(** ** Notions used to describe the assembled store *)

Definition with_children (cs : list addr) (n : DOMBaseNode) : DOMBaseNode :=
  match n with
  | Element e =>
      Element {| tag_name := tag_name e; xpath := xpath e;
                 attributes := attributes e; children := cs;
                 is_visible := is_visible e;
                 is_interactive := is_interactive e;
                 is_top_element := is_top_element e;
                 highlight_index := highlight_index e;
                 shadow_root := shadow_root e; parent := parent e;
                 viewport_coordinates := viewport_coordinates e;
                 page_coordinates := page_coordinates e;
                 viewport_info := viewport_info e |}
  | Text t => Text t
  end.

Arguments with_children : simpl never.

(** A node as the decoder made it, before any child was appended. *)
Definition unlink (n : DOMBaseNode) : DOMBaseNode := with_children [] n.

(** The node a record decodes to, if it decodes to one. *)
Definition decoded (node_data : json) : option DOMBaseNode :=
  match _parse_node node_data with
  | Return (Some n, _) => Some n
  | _ => None
  end.

(** The child identifier [id] names the node at [c]. *)
Definition resolves (m : gmap string addr) (id : json) (c : addr) : Prop :=
  ∃ s, py_str id = Return s ∧ m !! s = Some c.

(** The nodes of the tree rooted at [root]: the root, and the children of
    the elements of the tree. *)
Inductive in_tree (h : list DOMBaseNode) (root : addr) : addr → Prop :=
  | in_tree_root : in_tree h root root
  | in_tree_child a e c :
      in_tree h root a → h !! a = Some (Element e) → c ∈ children e →
      in_tree h root c.

(** The property C2 asks of the store: whoever holds a node in its child
    list is that node's parent. *)
Definition parents_linked (h : list DOMBaseNode) : Prop :=
  ∀ a e c n, h !! a = Some (Element e) → c ∈ children e →
             h !! c = Some n → node_parent n = Some a.

(** Two runs of the assembler that differ in their output only. *)
Definition same_tree (m1 m2 : outcome state) : Prop :=
  match m1, m2 with
  | Return s1, Return s2 => heap s1 = heap s2 ∧ node_map s1 = node_map s2
  | Raise e1, Raise e2 => e1 = e2
  | Unmodelled, Unmodelled => True
  | _, _ => False
  end.

(** ** Well-formed producer outputs *)

(** The node at [a] is an element whose handle is set, and [key] is that
    handle. *)
Definition has_handle (h : list DOMBaseNode) (a : addr) (key : Z + string)
    : Prop :=
  ∃ e, h !! a = Some (Element e) ∧ highlight_index e ≠ JNull ∧
       handle_key (highlight_index e) = Some key.

(** The tree below [a] is at most [depth] nodes deep. *)
Inductive fits (h : list DOMBaseNode) : nat → addr → Prop :=
  | fits_text depth a t : h !! a = Some (Text t) → fits h (S depth) a
  | fits_element depth a e :
      h !! a = Some (Element e) →
      (∀ c, c ∈ children e → fits h depth c) →
      fits h (S depth) a.

(** The keys of the entries that decode to a node. *)
Definition avail_of (items : list (string * json)) : list string :=
  (filter (λ kd, is_Some (decoded kd.2)) items).*1.

Definition ids_ok (avail : list string) (l : list json) : bool :=
  forallb (λ id, match py_str id with
                 | Return s => bool_decide (s ∈ avail)
                 | _ => false
                 end) l.

(** A handle is an integer, or it is unset. *)
Definition handle_ok (n : DOMBaseNode) : bool :=
  match n with
  | Element e =>
      match highlight_index e with JNull | JNum _ => true | _ => false end
  | Text _ => true
  end.

(** A record is in order when it decodes and every child identifier it
    lists names a node decoded before it. *)
Definition entry_ok (avail : list string) (node_data : json) : bool :=
  match _parse_node node_data with
  | Return (Some n, ids) =>
      handle_ok n &&
      match py_iter ids with
      | Return l => ids_ok avail l
      | _ => false
      end
  | Return (None, _) => true
  | _ => false
  end.

(** The entries come children first. *)
Fixpoint bottom_up (done items : list (string * json)) : bool :=
  match items with
  | [] => true
  | entry :: rest =>
      entry_ok (avail_of done) entry.2 && bottom_up (done ++ [entry]) rest
  end.

Definition record_handle_of (node_data : json) : option Z :=
  match decoded node_data with
  | Some (Element e) =>
      match highlight_index e with JNum hd => Some hd | _ => None end
  | _ => None
  end.

(** The handles of the records, in the order of the entries. *)
Definition item_handles (items : list (string * json)) : list Z :=
  omap (λ kd, record_handle_of kd.2) items.

(** The root identifier names an element record. *)
Definition root_ok (js_root_id : json) (items : list (string * json)) : bool :=
  match py_str js_root_id with
  | Return k =>
      match dict_get k items with
      | Some node_data =>
          match decoded node_data with
          | Some (Element _) => true
          | _ => false
          end
      | None => false
      end
  | _ => false
  end.

(** A producer output is well formed when its keys are distinct, its entries
    are in order and come children first, no two records carry the same
    handle, and the root identifier names an element record. *)
Definition well_formed (eval_page : json) : bool :=
  match eval_page with
  | JObj top =>
      match dict_get "map" top, dict_get "rootId" top with
      | Some (JObj items), Some js_root_id =>
          bool_decide (NoDup items.*1) && bottom_up [] items &&
          bool_decide (NoDup (item_handles items)) && root_ok js_root_id items
      | _, _ => false
      end
  | _ => false
  end.

(** What the assembly loop has established once it has gone through the
    entries [done]. *)
Record assembled (done : list (string * json)) (st : state) : Prop := {
  asm_lt : ∀ k a, node_map st !! k = Some a → a < length (heap st);
  asm_dom : ∀ k, is_Some (node_map st !! k) ↔ k ∈ avail_of done;
  asm_inj : ∀ k1 k2 a,
    node_map st !! k1 = Some a → node_map st !! k2 = Some a → k1 = k2;
  asm_cover : ∀ a, a < length (heap st) → ∃ k, node_map st !! k = Some a;
  asm_entry : ∀ k d n0 ids,
    (k, d) ∈ done → _parse_node d = Return (Some n0, ids) →
    ∃ a n l, node_map st !! k = Some a ∧ heap st !! a = Some n ∧
             unlink n = n0 ∧ py_iter ids = Return l ∧
             Forall2 (resolves (node_map st)) l (node_children n);
}.

(** Children have smaller addresses than the node that holds them. *)
Definition children_below (h : list DOMBaseNode) : Prop :=
  ∀ a n c, h !! a = Some n → c ∈ node_children n → c < a.

(** The entries of the [map] of a producer output. *)
Definition entries (eval_page : json) : list (string * json) :=
  match eval_page with
  | JObj top =>
      match dict_get "map" top with
      | Some (JObj items) => items
      | _ => []
      end
  | _ => []
  end.

(** No identifier occurs twice in a list of child identifiers. *)
Definition distinct_ids (l : list json) : Prop :=
  ∀ i j idi idj s,
    l !! i = Some idi → l !! j = Some idj →
    py_str idi = Return s → py_str idj = Return s → i = j.

(** ** Conditions on a store under which the index is exact *)

Definition unique_handles (h : list DOMBaseNode) : Prop :=
  ∀ a b key, has_handle h a key → has_handle h b key → a = b.

Definition hashable_handles (h : list DOMBaseNode) : Prop :=
  ∀ a e, h !! a = Some (Element e) →
         highlight_index e = JNull ∨ is_Some (handle_key (highlight_index e)).

(** Every entry of the map [m] is a node under its own handle. *)
Definition sound_index (h : list DOMBaseNode) (m : gmap (Z + string) addr)
    : Prop :=
  ∀ key b, m !! key = Some b → has_handle h b key.

(** The handles of a store are integers. *)
Definition integer_handles (h : list DOMBaseNode) : Prop :=
  ∀ a e, h !! a = Some (Element e) →
         highlight_index e = JNull ∨ ∃ hd, highlight_index e = JNum hd.

(** ** Further producer outputs used as examples *)

(** A root whose record lists a child identifier that names no record. *)
Definition example_dangling_child : json :=
  JObj [("map", JObj [("0", JObj [("tagName", JStr "body");
                                  ("xpath", JStr "/body");
                                  ("children", JArr [JNum 5])])]);
        ("rootId", JStr "0")].

(** A root identifier that names no record. *)
Definition example_missing_root : json :=
  JObj [("map", JObj [("1", hi_record); ("2", div_record)]);
        ("rootId", JNum 7)].

(** A record with a full viewport geometry, and that geometry. *)
Definition box_record : json :=
  JObj [("tagName", JStr "a"); ("xpath", JStr "/a");
        ("viewportCoordinates",
         JObj [("topLeft", JObj [("x", JNum 1); ("y", JNum 2)]);
               ("topRight", JObj [("x", JNum 11); ("y", JNum 2)]);
               ("bottomLeft", JObj [("x", JNum 1); ("y", JNum 7)]);
               ("bottomRight", JObj [("x", JNum 11); ("y", JNum 7)]);
               ("center", JObj [("y", JNum 4); ("x", JNum 6)]);
               ("width", JNum 10); ("height", JNum 5)])].

Definition box_geometry : CoordinateSet :=
  {| top_left := {| x := 1; y := 2 |};
     top_right := {| x := 11; y := 2 |};
     bottom_left := {| x := 1; y := 7 |};
     bottom_right := {| x := 11; y := 7 |};
     center := {| x := 6; y := 4 |};
     width := 10; height := 5 |}.

(** ** The service object and its methods *)

(** [c] is a full scroll state whose values are those of [vi]. *)
Definition full_viewport (c : json) (vi : ViewportInfo) : Prop :=
  ∃ kvs, c = JObj kvs ∧
    dict_get "scrollX" kvs = Some (JNum (scroll_x vi)) ∧
    dict_get "scrollY" kvs = Some (JNum (scroll_y vi)) ∧
    dict_get "width" kvs = Some (JNum (viewport_width vi)) ∧
    dict_get "height" kvs = Some (JNum (viewport_height vi)).

(** The lines a run prints for the entries [items]: one for each empty
    record. *)
Definition diagnostics_of (items : list (string * json)) : list diagnostic :=
  (λ kd, NodeIsNone kd.1 kd.2) <$> filter (λ kd, truthy kd.2 = false) items.

(** No child list refers to an address outside the store. *)
Definition no_dangling (h : list DOMBaseNode) : Prop :=
  ∀ a n c, h !! a = Some n → c ∈ node_children n → c < length h.

(** The argument [page.evaluate] is called with, lines 71 to 75. *)
Definition evaluate_args (highlight_elements : bool)
    (focus_element viewport_expansion : Z) : json :=
  JObj [("doHighlightElements", JBool highlight_elements);
        ("focusHighlightIndex", JNum focus_element);
        ("viewportExpansion", JNum viewport_expansion)].

Section Service.

(** The page lies outside the service: [evaluate pg code args] is what
    [await page.evaluate(code, args)] makes of the page, and what it yields
    or raises. *)
Context {Page : Type}
  (evaluate : Page → string → json → Page * outcome json).

Record DomService : Type := {
  page : Page;
  xpath_cache : list (string * json);
  _iter : Z;
  js_code : string;
}.

(** [DomService.__init__]; [resource] is the text of [buildDomTree.js]. *)
Definition __init__ (pg : Page) (resource : string) : DomService :=
  {| page := pg; xpath_cache := []; _iter := 0; js_code := resource |}.

(** The method [_build_dom_tree], lines 65 to 108: the counter goes up, the
    page is asked, and the answer is assembled by [_build_dom_tree]. *)
Definition DomService_build_dom_tree (self : DomService)
    (highlight_elements : bool) (focus_element viewport_expansion : Z)
    : DomService * outcome (state * addr) :=
  let this_iter := (_iter self + 1)%Z in
  let args := evaluate_args highlight_elements focus_element viewport_expansion in
  let answer := evaluate (page self) (js_code self) args in
  ({| page := answer.1; xpath_cache := xpath_cache self;
      _iter := this_iter; js_code := js_code self |},
   eval_page ← answer.2; _build_dom_tree eval_page).

(** The method [get_clickable_elements], lines 32 to 41. *)
Definition DomService_get_clickable_elements (recursion_limit : nat)
    (self : DomService) (highlight_elements : bool)
    (focus_element viewport_expansion : Z)
    : DomService * outcome (state * DOMState) :=
  let built :=
    DomService_build_dom_tree self highlight_elements focus_element
      viewport_expansion in
  (built.1,
   '(st, root) ← built.2;
   m ← _create_selector_map recursion_limit (heap st) root;
   Return (st, {| element_tree := root; selector_map := m |})).

(** A series of calls of [get_clickable_elements] on one service, each with
    its three arguments. *)
Definition run_calls (recursion_limit : nat) (calls : list (bool * Z * Z))
    (self : DomService) : DomService :=
  foldl (λ s c, (DomService_get_clickable_elements recursion_limit s
                   c.1.1 c.1.2 c.2).1) self calls.

End Service.

(** ** Producer outputs and records used as further examples *)

(** A record that lists its own identifier among its children. *)
Definition example_self_child : json :=
  JObj [("map", JObj [("1", hi_record);
                      ("0", JObj [("tagName", JStr "body");
                                  ("xpath", JStr "/body");
                                  ("children", JArr [JNum 1; JNum 0])])]);
        ("rootId", JNum 0)].

(** A record with a document geometry and a scroll state. *)
Definition scroll_page_geometry : json :=
  JObj [("topLeft", JObj [("x", JNum 1); ("y", JNum 2)]);
        ("topRight", JObj [("x", JNum 11); ("y", JNum 2)]);
        ("bottomLeft", JObj [("x", JNum 1); ("y", JNum 7)]);
        ("bottomRight", JObj [("x", JNum 11); ("y", JNum 7)]);
        ("center", JObj [("x", JNum 6); ("y", JNum 4)]);
        ("width", JNum 10); ("height", JNum 5)].

Definition scroll_viewport : json :=
  JObj [("scrollX", JNum 0); ("scrollY", JNum 120);
        ("width", JNum 800); ("height", JNum 600)].

Definition scroll_fields : list (string * json) :=
  [("tagName", JStr "div"); ("xpath", JStr "/body/div");
   ("pageCoordinates", scroll_page_geometry);
   ("viewport", scroll_viewport)].

Definition scroll_record : json := JObj scroll_fields.

Definition scroll_state : ViewportInfo :=
  {| scroll_x := 0; scroll_y := 120;
     viewport_width := 800; viewport_height := 600 |}.

(** Two elements that carry the same handle. *)
Definition example_shared_handle : json :=
  JObj [("map", JObj [("1", div_record); ("2", div_record);
                      ("0", body_record)]);
        ("rootId", JStr "0")].

(** The store of [example_bottom_up]. *)
Definition example_store : list DOMBaseNode :=
  match _build_dom_tree example_bottom_up with
  | Return (st, _) => heap st
  | _ => []
  end.

(** A page that always answers with the same producer output. *)
Definition constant_page (answer : json) (pg : unit) (code : string)
    (args : json) : unit * outcome json :=
  (pg, Return answer).

(** * Properties of the decoder *)

Section Decoder.

Implicit Types (kvs : list (string * json)) (k : string) (v : json).

Lemma bind_Return {A B} (m : outcome A) (f : A → outcome B) b :
  m ≫= f = Return b ↔ ∃ a, m = Return a ∧ f a = Return b.
Proof.
  destruct m as [a|e|]; simpl.
  - split; [eauto | by intros (? & [= <-] & ?)].
  - split; [done | by intros (? & ? & ?)].
  - split; [done | by intros (? & ? & ?)].
Qed.

Lemma getitem_Return kvs k v :
  py_getitem (JObj kvs) k = Return v ↔ dict_get k kvs = Some v.
Proof.
  unfold py_getitem. destruct (dict_get k kvs); split; congruence.
Qed.

Lemma getitem_missing kvs k :
  dict_get k kvs = None → py_getitem (JObj kvs) k = Raise (KeyError k).
Proof. unfold py_getitem. by intros ->. Qed.

Lemma dict_get_delete_ne kvs k k' :
  k ≠ k' → dict_get k' (dict_delete k kvs) = dict_get k' kvs.
Proof.
  intros Hne. unfold dict_delete.
  induction kvs as [|[k0 v0] rest IH]; [done|].
  rewrite filter_cons. simpl. destruct (decide (k0 ≠ k)) as [Hk|Hk]; simpl.
  - by rewrite IH.
  - assert (k0 = k) as -> by (destruct (decide (k0 = k)); [done | contradiction]).
    rewrite bool_decide_eq_false_2; done.
Qed.

Lemma dict_get_delete_eq kvs k : dict_get k (dict_delete k kvs) = None.
Proof.
  unfold dict_delete. induction kvs as [|[k0 v0] rest IH]; [done|].
  rewrite filter_cons. simpl. destruct (decide (k0 ≠ k)) as [Hk|Hk]; simpl.
  - rewrite bool_decide_eq_false_2; done.
  - done.
Qed.

Lemma dict_get_default_delete_ne kvs k k' v :
  k ≠ k' →
  dict_get_default k' v (dict_delete k kvs) = dict_get_default k' v kvs.
Proof. intros. unfold dict_get_default. by rewrite dict_get_delete_ne. Qed.

Lemma dict_get_Some_nonempty kvs k v : dict_get k kvs = Some v → kvs ≠ [].
Proof. by destruct kvs. Qed.

Lemma truthy_dict kvs : kvs ≠ [] → truthy (JObj kvs) = true.
Proof. by destruct kvs. Qed.

Lemma is_text_kind_spec kvs :
  is_text_kind kvs = true ↔ dict_get "type" kvs = Some (JStr "TEXT_NODE").
Proof.
  unfold is_text_kind. destruct (dict_get "type" kvs) as [[]|]; try (split; congruence).
  rewrite bool_decide_eq_true. split; congruence.
Qed.

Lemma is_text_kind_delete kvs k :
  k ≠ "type" → is_text_kind (dict_delete k kvs) = is_text_kind kvs.
Proof. intros. unfold is_text_kind. by rewrite dict_get_delete_ne. Qed.

Lemma parse_optional_delete_ne {A} kvs k k' (parse : json → outcome A) :
  k ≠ k' →
  parse_optional k' parse (dict_delete k kvs) = parse_optional k' parse kvs.
Proof. intros. unfold parse_optional. by rewrite dict_get_delete_ne. Qed.

Lemma parse_optional_delete_eq {A} kvs k (parse : json → outcome A) :
  parse_optional k parse (dict_delete k kvs) = Return None.
Proof. unfold parse_optional. by rewrite dict_get_delete_eq. Qed.

Lemma parse_optional_None {A} kvs k (parse : json → outcome A) :
  parse_optional k parse kvs = Return None ↔ dict_get k kvs = None.
Proof.
  unfold parse_optional. destruct (dict_get k kvs) as [c|]; [|done].
  split; [|done]. by destruct (parse c).
Qed.

(** A point decodes to its two coordinates. *)
Lemma make_coordinates_point v p : is_point v p → make_coordinates v = Return p.
Proof.
  intros (kvs & -> & Hp). destruct p as [px py]. simpl in Hp.
  assert (kvs = [("x", JNum px); ("y", JNum py)] ∨
          kvs = [("y", JNum py); ("x", JNum px)]) as [-> | ->]; [|done..].
  apply Permutation_sym in Hp.
  destruct kvs as [|a [|b [|? ?]]];
    try (apply Permutation_length in Hp; simpl in Hp; lia).
  apply Permutation_length_2_inv in Hp as [[= <- <-] | [= <- <-]]; auto.
Qed.

Lemma getitem_point kvs k p :
  has_point k kvs p → py_getitem (JObj kvs) k ≫= make_coordinates = Return p.
Proof.
  intros (v & Hv & Hp). apply getitem_Return in Hv. rewrite Hv. simpl.
  by apply make_coordinates_point.
Qed.

(** A full geometry sub-record decodes to exactly its values. *)
Lemma parse_coordinate_set_full c cs :
  full_coordinates c cs → parse_coordinate_set c = Return cs.
Proof.
  intros (kvs & -> & Htl & Htr & Hbl & Hbr & Hce & Hw & Hh).
  unfold parse_coordinate_set.
  rewrite (getitem_point _ _ _ Htl), (getitem_point _ _ _ Htr),
    (getitem_point _ _ _ Hbl), (getitem_point _ _ _ Hbr),
    (getitem_point _ _ _ Hce).
  apply getitem_Return in Hw, Hh. rewrite Hw, Hh. simpl. by destruct cs.
Qed.

(** The element branch, read off the three optional sub-records and the two
    required fields. *)
Lemma parse_element_Return kvs vc pc vi tag xp :
  parse_optional "viewportCoordinates" parse_coordinate_set kvs = Return vc →
  parse_optional "pageCoordinates" parse_coordinate_set kvs = Return pc →
  parse_optional "viewport" parse_viewport_info kvs = Return vi →
  dict_get "tagName" kvs = Some tag →
  dict_get "xpath" kvs = Some xp →
  parse_element kvs = Return {|
    tag_name := tag;
    xpath := xp;
    attributes := dict_get_default "attributes" (JObj []) kvs;
    children := [];
    is_visible := dict_get_default "isVisible" (JBool false) kvs;
    is_interactive := dict_get_default "isInteractive" (JBool false) kvs;
    is_top_element := dict_get_default "isTopElement" (JBool false) kvs;
    highlight_index := dict_get_default "highlightIndex" JNull kvs;
    shadow_root := dict_get_default "shadowRoot" (JBool false) kvs;
    parent := None;
    viewport_coordinates := vc;
    page_coordinates := pc;
    viewport_info := vi;
  |}.
Proof.
  intros Hvc Hpc Hvi Htag Hxp. unfold parse_element.
  apply getitem_Return in Htag, Hxp.
  by rewrite Hvc, Hpc, Hvi, Htag, Hxp.
Qed.

Lemma parse_node_element kvs e :
  kvs ≠ [] → is_text_kind kvs = false → parse_element kvs = Return e →
  _parse_node (JObj kvs) =
    Return (Some (Element e), dict_get_default "children" (JArr []) kvs).
Proof.
  intros Hne Hk He. unfold _parse_node.
  rewrite (truthy_dict _ Hne), Hk, He. done.
Qed.

(** Whatever the decoder returns is not linked yet: no children, no
    parent. *)
Lemma parse_node_unlinked node_data n ids :
  _parse_node node_data = Return (Some n, ids) →
  node_children n = [] ∧ node_parent n = None.
Proof.
  unfold _parse_node. destruct (truthy node_data); simpl; [|done].
  destruct node_data as [| | | | |kvs]; try done.
  destruct (is_text_kind kvs).
  - intros H. apply bind_Return in H as (t & Ht & [= <- _]).
    unfold parse_text in Ht.
    apply bind_Return in Ht as (? & _ & Ht).
    apply bind_Return in Ht as (? & _ & [= <-]). done.
  - intros H. apply bind_Return in H as (e & He & [= <- _]).
    unfold parse_element in He.
    repeat (apply bind_Return in He as (? & _ & He)).
    injection He as <-. done.
Qed.

(** A text record yields no child identifiers, whatever fields it has. *)
Lemma parse_node_text_ids node_data t ids :
  _parse_node node_data = Return (Some (Text t), ids) → ids = JArr [].
Proof.
  unfold _parse_node. destruct (truthy node_data); simpl; [|done].
  destruct node_data as [| | | | |kvs]; try done.
  destruct (is_text_kind kvs).
  - intros H. by apply bind_Return in H as (? & _ & [= _ <-]).
  - intros H. by apply bind_Return in H as (? & _ & [=]).
Qed.

End Decoder.

(** ** Claims about the decoder *)

(** C7: a record whose [type] is ["TEXT_NODE"] decodes to a text node that
    carries the record's [text] and [isVisible] values, with an empty list of
    child identifiers. *)
Theorem parse_node_text_record (kvs : list (string * json)) (vt vv : json) :
  dict_get "type" kvs = Some (JStr "TEXT_NODE") →
  dict_get "text" kvs = Some vt →
  dict_get "isVisible" kvs = Some vv →
  ∃ t, _parse_node (JObj kvs) = Return (Some (Text t), JArr []) ∧
       text t = vt ∧ text_is_visible t = vv.
Proof.
  intros Hty Ht Hv.
  exists {| text := vt; text_is_visible := vv; text_parent := None |}.
  split; [|done]. unfold _parse_node.
  rewrite (truthy_dict _ (dict_get_Some_nonempty _ _ _ Hty)). simpl.
  apply is_text_kind_spec in Hty. rewrite Hty.
  unfold parse_text. apply getitem_Return in Ht, Hv. by rewrite Ht, Hv.
Qed.

Lemma parse_node_text_record_witness :
  ∃ t, _parse_node hi_record = Return (Some (Text t), JArr []) ∧
       text t = JStr "hi" ∧ text_is_visible t = JBool true.
Proof.
  apply (parse_node_text_record
           [("type", JStr "TEXT_NODE"); ("text", JStr "hi");
            ("isVisible", JBool true)]); reflexivity.
Defined.

(** C8: a non-empty element record with [tagName] and [xpath], whose
    optional sub-records are absent or decode, yields an element in which
    every absent optional field has its default: [attributes] the empty
    mapping, the four flags false, the handle unset. *)
Theorem parse_node_element_defaults (kvs : list (string * json))
    (tag xp : json) :
  is_text_kind kvs = false →
  dict_get "tagName" kvs = Some tag →
  dict_get "xpath" kvs = Some xp →
  optional_ok "viewportCoordinates" parse_coordinate_set kvs →
  optional_ok "pageCoordinates" parse_coordinate_set kvs →
  optional_ok "viewport" parse_viewport_info kvs →
  ∃ e ids, _parse_node (JObj kvs) = Return (Some (Element e), ids) ∧
    tag_name e = tag ∧ xpath e = xp ∧
    (dict_get "attributes" kvs = None → attributes e = JObj []) ∧
    (dict_get "isVisible" kvs = None → is_visible e = JBool false) ∧
    (dict_get "isInteractive" kvs = None → is_interactive e = JBool false) ∧
    (dict_get "isTopElement" kvs = None → is_top_element e = JBool false) ∧
    (dict_get "shadowRoot" kvs = None → shadow_root e = JBool false) ∧
    (dict_get "highlightIndex" kvs = None → highlight_index e = JNull).
Proof.
  intros Hk Htag Hxp [vc Hvc] [pc Hpc] [vi Hvi].
  do 2 eexists. split.
  { apply parse_node_element; [by eapply dict_get_Some_nonempty | done |].
    by apply parse_element_Return. }
  simpl. unfold dict_get_default.
  repeat split; try done; by intros ->.
Qed.

Lemma parse_node_element_defaults_witness :
  ∃ e ids, _parse_node body_record = Return (Some (Element e), ids) ∧
    tag_name e = JStr "body" ∧ xpath e = JStr "/body" ∧
    attributes e = JObj [] ∧ is_visible e = JBool false ∧
    is_interactive e = JBool false ∧ is_top_element e = JBool false ∧
    shadow_root e = JBool false ∧ highlight_index e = JNull.
Proof.
  destruct (parse_node_element_defaults
              [("tagName", JStr "body"); ("xpath", JStr "/body");
               ("children", JArr [JNum 1; JNum 2])] (JStr "body") (JStr "/body"))
    as (e & ids & H & Ht & Hx & Ha & Hv & Hi & Hto & Hs & Hh);
    try reflexivity; try (by eexists).
  exists e, ids. repeat split; auto.
Defined.

(** C9: an element record with a full [viewportCoordinates] sub-record
    decodes to an element whose viewport geometry has exactly the input's
    corners, center, width and height.  The two geometry records are decoded
    independently: each is present in the node exactly when its sub-record is
    present in the record, and taking either sub-record away leaves the other
    one's decoding as it was. *)
Theorem parse_node_geometry (kvs : list (string * json)) (tag xp c : json)
    (cs : CoordinateSet) :
  is_text_kind kvs = false →
  dict_get "tagName" kvs = Some tag →
  dict_get "xpath" kvs = Some xp →
  dict_get "viewportCoordinates" kvs = Some c →
  full_coordinates c cs →
  optional_ok "pageCoordinates" parse_coordinate_set kvs →
  optional_ok "viewport" parse_viewport_info kvs →
  ∃ e ids, _parse_node (JObj kvs) = Return (Some (Element e), ids) ∧
    viewport_coordinates e = Some cs ∧
    (page_coordinates e = None ↔ dict_get "pageCoordinates" kvs = None) ∧
    (∃ e1, _parse_node (JObj (dict_delete "pageCoordinates" kvs))
             = Return (Some (Element e1), ids) ∧
           viewport_coordinates e1 = Some cs ∧ page_coordinates e1 = None) ∧
    (∃ e2, _parse_node (JObj (dict_delete "viewportCoordinates" kvs))
             = Return (Some (Element e2), ids) ∧
           viewport_coordinates e2 = None ∧
           page_coordinates e2 = page_coordinates e).
Proof.
  intros Hk Htag Hxp Hc Hfull [pc Hpc] [vi Hvi].
  assert (Hne : kvs ≠ []) by by eapply dict_get_Some_nonempty.
  assert (Hvc : parse_optional "viewportCoordinates" parse_coordinate_set kvs
                = Return (Some cs)).
  { unfold parse_optional. by rewrite Hc, (parse_coordinate_set_full _ _ Hfull). }
  do 2 eexists. split.
  { apply parse_node_element; [done..|]. by apply parse_element_Return. }
  simpl. split; [done|]. split.
  { rewrite <-(parse_optional_None kvs _ parse_coordinate_set), Hpc.
    split; intros; by simplify_eq. }
  split.
  - eexists. split.
    + rewrite <-(dict_get_default_delete_ne kvs "pageCoordinates" "children") by done.
      apply parse_node_element.
      * apply (dict_get_Some_nonempty _ "tagName" tag).
        by rewrite dict_get_delete_ne.
      * by rewrite is_text_kind_delete.
      * unfold parse_element.
        rewrite !dict_get_default_delete_ne by done.
        rewrite parse_optional_delete_eq, !parse_optional_delete_ne by done.
        rewrite Hvc, Hvi. unfold py_getitem.
        rewrite !dict_get_delete_ne by done. rewrite Htag, Hxp. done.
    + done.
  - eexists. split.
    + rewrite <-(dict_get_default_delete_ne kvs "viewportCoordinates" "children") by done.
      apply parse_node_element.
      * apply (dict_get_Some_nonempty _ "tagName" tag).
        by rewrite dict_get_delete_ne.
      * by rewrite is_text_kind_delete.
      * unfold parse_element.
        rewrite !dict_get_default_delete_ne by done.
        rewrite parse_optional_delete_eq, !parse_optional_delete_ne by done.
        rewrite Hpc, Hvi. unfold py_getitem.
        rewrite !dict_get_delete_ne by done. rewrite Htag, Hxp. done.
    + done.
Qed.

Lemma parse_node_geometry_witness :
  ∃ e ids, _parse_node box_record = Return (Some (Element e), ids) ∧
    viewport_coordinates e = Some box_geometry ∧ page_coordinates e = None.
Proof.
  pose proof (point := λ a b : Z,
    ex_intro (λ l, JObj [("x", JNum a); ("y", JNum b)] = JObj l ∧
                   l ≡ₚ [("x", JNum a); ("y", JNum b)]) _
             (conj eq_refl (reflexivity _))).
  destruct (λ Hfull, parse_node_geometry
              [("tagName", JStr "a"); ("xpath", JStr "/a");
               ("viewportCoordinates",
                JObj [("topLeft", JObj [("x", JNum 1); ("y", JNum 2)]);
                      ("topRight", JObj [("x", JNum 11); ("y", JNum 2)]);
                      ("bottomLeft", JObj [("x", JNum 1); ("y", JNum 7)]);
                      ("bottomRight", JObj [("x", JNum 11); ("y", JNum 7)]);
                      ("center", JObj [("y", JNum 4); ("x", JNum 6)]);
                      ("width", JNum 10); ("height", JNum 5)])]
              (JStr "a") (JStr "/a") _ box_geometry
              eq_refl eq_refl eq_refl eq_refl Hfull
              (ex_intro _ None eq_refl) (ex_intro _ None eq_refl))
    as (e & ids & H & Hv & Hp & _).
  - eexists. split; [reflexivity|].
    repeat split; try (eexists; split; [reflexivity | apply point]).
    eexists. split; [reflexivity|]. eexists. split; [reflexivity|].
    simpl. apply perm_swap.
  - exists e, ids. split; [exact H|]. split; [exact Hv|]. by apply Hp.
Defined.

(** C10: the decoder is partial on non-empty records.  A text record without
    [text], or with [text] but without [isVisible], and an element record
    (its optional sub-records absent or decodable) without [tagName], or with
    [tagName] but without [xpath], make it raise [KeyError] for the missing
    field: no node and no "no node" result comes back. *)
Theorem parse_node_missing_field :
  (∀ kvs, dict_get "type" kvs = Some (JStr "TEXT_NODE") →
          dict_get "text" kvs = None →
          _parse_node (JObj kvs) = Raise (KeyError "text")) ∧
  (∀ kvs vt, dict_get "type" kvs = Some (JStr "TEXT_NODE") →
          dict_get "text" kvs = Some vt →
          dict_get "isVisible" kvs = None →
          _parse_node (JObj kvs) = Raise (KeyError "isVisible")) ∧
  (∀ kvs, kvs ≠ [] → is_text_kind kvs = false →
          optional_ok "viewportCoordinates" parse_coordinate_set kvs →
          optional_ok "pageCoordinates" parse_coordinate_set kvs →
          optional_ok "viewport" parse_viewport_info kvs →
          dict_get "tagName" kvs = None →
          _parse_node (JObj kvs) = Raise (KeyError "tagName")) ∧
  (∀ kvs tag, is_text_kind kvs = false →
          optional_ok "viewportCoordinates" parse_coordinate_set kvs →
          optional_ok "pageCoordinates" parse_coordinate_set kvs →
          optional_ok "viewport" parse_viewport_info kvs →
          dict_get "tagName" kvs = Some tag →
          dict_get "xpath" kvs = None →
          _parse_node (JObj kvs) = Raise (KeyError "xpath")).
Proof.
  repeat split.
  - intros kvs Hty Ht. unfold _parse_node.
    rewrite (truthy_dict _ (dict_get_Some_nonempty _ _ _ Hty)). simpl.
    apply is_text_kind_spec in Hty. rewrite Hty.
    unfold parse_text. by rewrite (getitem_missing _ _ Ht).
  - intros kvs vt Hty Ht Hv. unfold _parse_node.
    rewrite (truthy_dict _ (dict_get_Some_nonempty _ _ _ Hty)). simpl.
    apply is_text_kind_spec in Hty. rewrite Hty.
    unfold parse_text. apply getitem_Return in Ht.
    by rewrite Ht, (getitem_missing _ _ Hv).
  - intros kvs Hne Hk [vc Hvc] [pc Hpc] [vi Hvi] Htag. unfold _parse_node.
    rewrite (truthy_dict _ Hne), Hk. simpl. unfold parse_element.
    by rewrite Hvc, Hpc, Hvi, (getitem_missing _ _ Htag).
  - intros kvs tag Hk [vc Hvc] [pc Hpc] [vi Hvi] Htag Hxp. unfold _parse_node.
    rewrite (truthy_dict _ (dict_get_Some_nonempty _ _ _ Htag)), Hk. simpl.
    unfold parse_element. apply getitem_Return in Htag.
    by rewrite Hvc, Hpc, Hvi, Htag, (getitem_missing _ _ Hxp).
Qed.

Lemma parse_node_missing_field_witness :
  _parse_node (JObj [("type", JStr "TEXT_NODE"); ("isVisible", JBool true)])
    = Raise (KeyError "text") ∧
  _parse_node (JObj [("type", JStr "TEXT_NODE"); ("text", JStr "hi")])
    = Raise (KeyError "isVisible") ∧
  _parse_node (JObj [("xpath", JStr "/body")]) = Raise (KeyError "tagName") ∧
  _parse_node (JObj [("tagName", JStr "body")]) = Raise (KeyError "xpath").
Proof.
  destruct parse_node_missing_field as (H1 & H2 & H3 & H4).
  split; [|split; [|split]].
  - apply H1; reflexivity.
  - apply (H2 _ (JStr "hi")); reflexivity.
  - apply H3; try reflexivity; try discriminate; by exists None.
  - apply (H4 _ (JStr "body")); try reflexivity; by exists None.
Defined.

(** * Properties of the assembler *)

Section Loops.

Context {A S : Type} (body : S → A → outcome S).

Lemma for_each_app xs ys st :
  for_each body (xs ++ ys) st = for_each body xs st ≫= for_each body ys.
Proof.
  revert st. induction xs as [|x xs IH]; intros st; simpl.
  - done.
  - destruct (body st x); simpl; auto.
Qed.

(** Partial correctness of a loop, with an invariant over the part of the
    list already visited. *)
Lemma for_each_invariant (Q : list A → A → Prop) (P : list A → S → Prop) :
  (∀ done x s s', P done s → Q done x → body s x = Return s' →
                  P (done ++ [x]) s') →
  ∀ xs done s s',
    P done s →
    (∀ pre x post, xs = pre ++ x :: post → Q (done ++ pre) x) →
    for_each body xs s = Return s' →
    P (done ++ xs) s'.
Proof.
  intros Hstep xs. induction xs as [|x xs IH]; intros done s s' HP HQ; simpl.
  - intros [= <-]. by rewrite app_nil_r.
  - intros H. apply bind_Return in H as (s1 & Hs1 & H).
    rewrite (cons_middle x done xs), app_assoc.
    apply (IH _ s1); [| |done].
    + apply (Hstep _ _ s); [done| |done].
      specialize (HQ [] x xs eq_refl). by rewrite app_nil_r in HQ.
    + intros pre y post ->. rewrite <-app_assoc. simpl.
      by apply (HQ (x :: pre) y post).
Qed.

(** Total correctness: when every step returns, so does the loop. *)
Lemma for_each_returns (Q : list A → A → Prop) (P : list A → S → Prop) :
  (∀ done x s, P done s → Q done x →
               ∃ s', body s x = Return s' ∧ P (done ++ [x]) s') →
  ∀ xs done s,
    P done s →
    (∀ pre x post, xs = pre ++ x :: post → Q (done ++ pre) x) →
    ∃ s', for_each body xs s = Return s' ∧ P (done ++ xs) s'.
Proof.
  intros Hstep xs. induction xs as [|x xs IH]; intros done s HP HQ; simpl.
  - exists s. by rewrite app_nil_r.
  - destruct (Hstep done x s) as (s1 & Hs1 & HP1); [done| |].
    { specialize (HQ [] x xs eq_refl). by rewrite app_nil_r in HQ. }
    rewrite Hs1. simpl.
    rewrite (cons_middle x done xs), app_assoc. apply IH; [done|].
    intros pre y post ->. rewrite <-app_assoc. simpl.
    by apply (HQ (x :: pre) y post).
Qed.

End Loops.

Section Assembler.

Implicit Types (st : state) (k s : string) (d id : json) (a c : addr)
  (e : DOMElementNode) (n : DOMBaseNode) (items : list (string * json)).

Lemma with_children_id e : with_children (children e) (Element e) = Element e.
Proof. by destruct e. Qed.

Lemma with_children_append cs c e :
  with_children cs (Element (append_child c e)) = with_children cs (Element e).
Proof. done. Qed.

Lemma node_children_with_children cs e :
  node_children (with_children cs (Element e)) = cs.
Proof. done. Qed.

Lemma node_parent_with_children cs n :
  node_parent (with_children cs n) = node_parent n.
Proof. by destruct n. Qed.

Lemma unlink_with_children cs n : unlink (with_children cs n) = unlink n.
Proof. by destruct n. Qed.

Lemma unlink_decoded d n : decoded d = Some n → unlink n = n.
Proof.
  unfold decoded. destruct (_parse_node d) as [[[n'|] ids]| |] eqn:Hp; try done.
  intros [= ->]. apply parse_node_unlinked in Hp as [Hc _].
  destruct n as [e|t]; [|done]. simpl in Hc. unfold unlink. rewrite <-Hc.
  apply with_children_id.
Qed.

(** One pass through the inner loop body that does not raise appends the
    child's node to the children of [node_map[id]]. *)
Lemma attach_child_Return k st id st' :
  attach_child k st id = Return st' ↔
  ∃ c a e, resolves (node_map st) id c ∧
    node_map st !! k = Some a ∧ heap st !! a = Some (Element e) ∧
    st' = {| heap := <[a := Element (append_child c e)]> (heap st);
             node_map := node_map st; printed := printed st |}.
Proof.
  unfold attach_child, attach, resolves. split.
  - intros H. apply bind_Return in H as (s & Hs & H).
    destruct (node_map st !! s) as [c|] eqn:Hc; [|done].
    rewrite bool_decide_eq_true_2 in H by eauto. simpl in H.
    destruct (node_map st !! k) as [a|] eqn:Hk; [|done].
    destruct (heap st !! a) as [[e|t]|] eqn:Ha; try done.
    injection H as <-. exists c, a, e. eauto 10.
  - intros (c & a & e & (s & Hs & Hc) & Hk & Ha & ->).
    rewrite Hs. simpl. rewrite Hc.
    rewrite bool_decide_eq_true_2 by eauto. simpl. by rewrite Hk, Ha.
Qed.

(** The membership test of line 97 is never taken: the inner loop body
    never prints. *)
Lemma attach_child_printed k st id st' :
  attach_child k st id = Return st' → printed st' = printed st.
Proof. intros (c & a & e & _ & _ & _ & ->)%attach_child_Return. done. Qed.

(** A child identifier that names no decoded node makes the loop body raise
    [KeyError], through the lookup of line 95. *)
Lemma attach_child_dangling k st id s :
  py_str id = Return s → node_map st !! s = None →
  attach_child k st id = Raise (KeyError s).
Proof. intros Hs Hc. unfold attach_child. rewrite Hs. simpl. by rewrite Hc. Qed.

(** The whole inner loop, for an element. *)
Lemma attach_children_Return k a ids : ∀ e st st',
  node_map st !! k = Some a → heap st !! a = Some (Element e) →
  for_each (attach_child k) ids st = Return st' ↔
  ∃ cs, Forall2 (resolves (node_map st)) ids cs ∧
    st' = {| heap := <[a := with_children (children e ++ cs) (Element e)]> (heap st);
             node_map := node_map st; printed := printed st |}.
Proof.
  induction ids as [|id ids IH]; intros e st st' Hk Ha; simpl.
  - split.
    + intros [= <-]. exists []. split; [constructor|].
      rewrite app_nil_r, with_children_id, list_insert_id by done.
      by destruct st.
    + intros (cs & Hcs & ->). apply Forall2_nil_inv_l in Hcs as ->.
      rewrite app_nil_r, with_children_id, list_insert_id by done.
      by destruct st.
  - assert (Hlt : a < length (heap st)) by by eapply lookup_lt_Some.
    split.
    + intros H. apply bind_Return in H as (st1 & H1 & H).
      apply attach_child_Return in H1 as (c & a' & e' & Hc & Hk' & Ha' & ->).
      simplify_eq.
      apply (IH (append_child c e)) in H as (cs & Hcs & ->); simpl;
        [| done | by apply list_lookup_insert_eq].
      exists (c :: cs). split; [by constructor|].
      by rewrite list_insert_insert_eq, with_children_append, <-app_assoc.
    + intros (cs & Hcs & ->).
      apply Forall2_cons_inv_l in Hcs as (c & cs' & Hc & Hcs & ->).
      apply bind_Return. eexists. split.
      { apply attach_child_Return. by exists c, a, e. }
      apply (IH (append_child c e)); simpl;
        [done | by apply list_lookup_insert_eq |].
      exists cs'. split; [done|].
      by rewrite list_insert_insert_eq, with_children_append, <-app_assoc.
Qed.

(** The outer loop body.  Either the record is empty and only a line is
    printed, or the decoded node is stored at a fresh address, under the
    record's key, with the nodes its child identifiers name as children. *)
Lemma process_entry_Return st k d st' :
  process_entry st (k, d) = Return st' ↔
  (_parse_node d = Return (None, JArr []) ∧ st' = print (NodeIsNone k d) st) ∨
  (∃ n ids l cs,
     _parse_node d = Return (Some n, ids) ∧ py_iter ids = Return l ∧
     Forall2 (resolves (<[k := length (heap st)]> (node_map st))) l cs ∧
     st' = {| heap := heap st ++ [with_children cs n];
              node_map := <[k := length (heap st)]> (node_map st);
              printed := printed st |}).
Proof.
  unfold process_entry. simpl.
  destruct (_parse_node d) as [[[n|] ids]| |] eqn:Hp; simpl.
  2:{ split; [intros [= <-]; left | intros [[_ ->]|(?&?&?&?&?&_)]; [done|done]].
      split; [|done]. revert Hp. unfold _parse_node.
      destruct (truthy d); simpl; [|by intros [= <-]].
      destruct d as [| | | | |kvs]; try done.
      destruct (is_text_kind kvs); intros H;
        by apply bind_Return in H as (? & _ & [=]). }
  2,3: by split; [|intros [[? _]|(?&?&?&?&?&_)]].
  split.
  - intros H. apply bind_Return in H as (l & Hl & H). right.
    destruct n as [e|t].
    + eapply (attach_children_Return k (length (heap st))) in H
        as (cs & Hcs & ->); simpl.
      * exists (Element e), ids, l, cs. do 3 (split; [done|]).
        f_equal. apply parse_node_unlinked in Hp as [Hc _]. simpl in Hc.
        rewrite Hc. simpl.
        by rewrite <-(Nat.add_0_r (length (heap st))), insert_app_r.
      * apply lookup_insert_eq.
      * by apply list_lookup_middle.
    + apply parse_node_text_ids in Hp as Hids. subst ids.
      injection Hl as <-. simpl in H. injection H as <-.
      exists (Text t), (JArr []), [], []. do 2 (split; [done|]).
      split; [constructor|done].
  - intros [[? _]|(n' & ids' & l & cs & [= <- <-] & Hl & Hcs & ->)]; [done|].
    rewrite Hl. simpl. destruct n as [e|t].
    + apply (attach_children_Return k (length (heap st)) l e); simpl.
      * apply lookup_insert_eq.
      * by apply list_lookup_middle.
      * exists cs. split; [done|]. f_equal.
        apply parse_node_unlinked in Hp as [Hc _]. simpl in Hc.
        rewrite Hc. simpl.
        by rewrite <-(Nat.add_0_r (length (heap st))), insert_app_r.
    + apply parse_node_text_ids in Hp as Hids. subst ids.
      injection Hl as <-. by apply Forall2_nil_inv_l in Hcs as ->.
Qed.

End Assembler.

Section AssemblerClaims.

Implicit Types (st : state) (k s : string) (d id : json) (a c : addr)
  (e : DOMElementNode) (n : DOMBaseNode) (items : list (string * json)).

Lemma attach_child_same_tree k st1 st2 id :
  heap st1 = heap st2 → node_map st1 = node_map st2 →
  same_tree (attach_child k st1 id) (attach_child k st2 id).
Proof.
  destruct st1 as [h m p1], st2 as [h2 m2 p2]. simpl. intros <- <-.
  unfold attach_child, attach. simpl. destruct (py_str id) as [s| |]; simpl; try done.
  destruct (m !! s) as [c|]; [|done].
  rewrite bool_decide_eq_true_2 by eauto. simpl.
  destruct (m !! k) as [a|]; [|done].
  by destruct (h !! a) as [[e|t]|].
Qed.

Lemma for_each_same_tree {A} (body : state → A → outcome state) :
  (∀ x st1 st2, heap st1 = heap st2 → node_map st1 = node_map st2 →
                same_tree (body st1 x) (body st2 x)) →
  ∀ xs st1 st2, heap st1 = heap st2 → node_map st1 = node_map st2 →
    same_tree (for_each body xs st1) (for_each body xs st2).
Proof.
  intros Hbody xs. induction xs as [|x xs IH]; intros st1 st2 Hh Hm; simpl.
  - done.
  - specialize (Hbody x st1 st2 Hh Hm).
    destruct (body st1 x) as [s1| |], (body st2 x) as [s2| |]; simpl in *;
      try done.
    destruct Hbody. by apply IH.
Qed.

Lemma process_entry_same_tree x st1 st2 :
  heap st1 = heap st2 → node_map st1 = node_map st2 →
  same_tree (process_entry st1 x) (process_entry st2 x).
Proof.
  intros Hh Hm. unfold process_entry.
  destruct (_parse_node x.2) as [[[n|] ids]| |]; simpl; try done.
  destruct (py_iter ids) as [l| |]; simpl; try done.
  apply for_each_same_tree.
  - intros. by apply attach_child_same_tree.
  - simpl. by rewrite Hh.
  - simpl. by rewrite Hh, Hm.
Qed.

(** What has been printed stays printed. *)
Lemma process_entry_printed st x st' dg :
  process_entry st x = Return st' → dg ∈ printed st → dg ∈ printed st'.
Proof.
  destruct x as [k d].
  intros [[_ ->]|(n & ids & l & cs & _ & _ & _ & ->)]%process_entry_Return Hdg;
    simpl; [|done].
  apply elem_of_app. by left.
Qed.

Lemma for_each_printed items st st' dg :
  for_each process_entry items st = Return st' →
  dg ∈ printed st → dg ∈ printed st'.
Proof.
  intros H Hdg.
  apply (for_each_invariant process_entry (λ _ _, True)
           (λ _ st0, dg ∈ printed st0)) with (done := [])
           (xs := items) (s := st) (s' := st'); try done.
  intros _ x st0 st1 ? _ ?. by eapply process_entry_printed.
Qed.

(** The second diagnostic, for a child that is not found, is never printed:
    when such a child is met the run has already raised. *)
Lemma assemble_never_reports_child items st s :
  assemble items = Return st → ChildNotFound s ∉ printed st.
Proof.
  unfold assemble. intros H.
  apply (for_each_invariant process_entry (λ _ _, True)
           (λ _ st0, ChildNotFound s ∉ printed st0)) with (done := [])
           (xs := items) (s := initial_state) (s' := st); try done.
  - clear. intros _ [k d] st st' Hst _.
    intros [[_ ->]|(n & ids & l & cs & _ & _ & _ & ->)]%process_entry_Return;
      simpl; [|done].
    rewrite elem_of_app, list_elem_of_singleton. by intros [?|?].
  - simpl. apply not_elem_of_nil.
Qed.

(** X9: whenever the inner loop comes to a child identifier that names no
    decoded node, the identifiers before it having been attached, the whole
    run raises [KeyError] for it, whatever entries follow. *)
Lemma dangling_child_aborts pre k d post st n ids l1 id l2 cs s :
  assemble pre = Return st →
  _parse_node d = Return (Some n, ids) →
  py_iter ids = Return (l1 ++ id :: l2) →
  Forall2 (resolves (<[k := length (heap st)]> (node_map st))) l1 cs →
  py_str id = Return s → s ≠ k → node_map st !! s = None →
  assemble (pre ++ (k, d) :: post) = Raise (KeyError s).
Proof.
  intros Hpre Hp Hl Hcs Hs Hne Hnone.
  assert (Hstep : process_entry st (k, d) = Raise (KeyError s)).
  { unfold process_entry. cbn [fst snd]. rewrite Hp. cbn [mbind outcome_bind].
    rewrite Hl. cbn [mbind outcome_bind]. rewrite for_each_app.
    destruct n as [e|t].
    - pose proof (proj2 (attach_children_Return k (length (heap st)) l1 e
                           (store_node k (Element e) st) _
                           (lookup_insert_eq _ _ _)
                           (list_lookup_middle _ _ _ _ eq_refl))
                        (ex_intro _ cs (conj Hcs eq_refl))) as ->.
      simpl. rewrite (attach_child_dangling _ _ _ s); [done..|].
      simpl. by rewrite lookup_insert_ne.
    - apply parse_node_text_ids in Hp as ->. injection Hl as Hl.
      by destruct l1. }
  unfold assemble in *. rewrite for_each_app, Hpre. simpl. by rewrite Hstep.
Qed.

Lemma dangling_child_aborts_witness :
  assemble [("1", hi_record);
            ("0", JObj [("tagName", JStr "body"); ("xpath", JStr "/body");
                        ("children", JArr [JNum 1; JNum 2])]);
            ("2", div_record)] = Raise (KeyError "2").
Proof.
  eapply (dangling_child_aborts [("1", hi_record)] "0" _ [("2", div_record)]
            _ _ _ [JNum 1] (JNum 2) [] [0] "2").
  - reflexivity.
  - reflexivity.
  - reflexivity.
  - repeat constructor. by exists "1".
  - reflexivity.
  - discriminate.
  - reflexivity.
Defined.

(** ** Claims about the assembler *)

(** C1 (the code departs from it): for the producer output
    [example_dangling_child], whose only record lists the child identifier
    [5] that names no node, the run raises [KeyError] at the lookup of line
    95 instead of skipping the child, and no tree is returned. *)
Theorem dangling_child_raises :
  _build_dom_tree example_dangling_child = Raise (KeyError "5") ∧
  ∀ limit, get_clickable_elements limit example_dangling_child
           = Raise (KeyError "5").
Proof. split; [|intros limit]; reflexivity. Qed.

(** C4, as the specification words it: with the root's entry first, the run
    raises when it comes to the root's first child and returns nothing. *)
Lemma example_root_first_raises :
  _build_dom_tree example_root_first = Raise (KeyError "1") ∧
  ¬ ∃ limit r, get_clickable_elements limit example_root_first = Return r.
Proof. split; [reflexivity|]. by intros (limit & r & H). Qed.

(** C4, amended: with the same three entries given children first, the
    result is a tree whose root is the element [body] with exactly two
    children, the text node [hi] and the element [div], and an index with
    the single entry [0 ↦ div]. *)
Theorem example_bottom_up_result (limit : nat) :
  2 ≤ limit →
  ∃ st ds body hi div a1 a2,
    get_clickable_elements limit example_bottom_up = Return (st, ds) ∧
    heap st !! element_tree ds = Some (Element body) ∧
    tag_name body = JStr "body" ∧ children body = [a1; a2] ∧
    heap st !! a1 = Some (Text hi) ∧ text hi = JStr "hi" ∧
    heap st !! a2 = Some (Element div) ∧ tag_name div = JStr "div" ∧
    children div = [] ∧
    selector_map ds = {[ inl 0%Z := a2 ]}.
Proof.
  intros Hlimit. destruct limit as [|[|limit]]; [lia..|].
  do 7 eexists. split; [reflexivity|]. simpl. repeat split.
Qed.

Lemma example_bottom_up_result_witness :
  ∃ st ds body hi div a1 a2,
    get_clickable_elements 1000 example_bottom_up = Return (st, ds) ∧
    heap st !! element_tree ds = Some (Element body) ∧
    tag_name body = JStr "body" ∧ children body = [a1; a2] ∧
    heap st !! a1 = Some (Text hi) ∧ text hi = JStr "hi" ∧
    heap st !! a2 = Some (Element div) ∧ tag_name div = JStr "div" ∧
    children div = [] ∧
    selector_map ds = {[ inl 0%Z := a2 ]}.
Proof. apply (example_bottom_up_result 1000). lia. Defined.

(** C5: when the declared root identifier names no decoded node, or names a
    text node, the function raises ([KeyError] in the first case,
    [ValueError] in the second) and so does [get_clickable_elements]: no
    tree is returned. *)
Theorem unresolved_root_raises (eval_page js_root_id : json) items st
    (root_id : string) :
  py_getitem eval_page "map" = Return (JObj items) →
  py_getitem eval_page "rootId" = Return js_root_id →
  assemble items = Return st →
  py_str js_root_id = Return root_id →
  node_map st !! root_id = None ∨
    (∃ a t, node_map st !! root_id = Some a ∧ heap st !! a = Some (Text t)) →
  ∃ err,
    (err = KeyError root_id ∨
     err = ValueError "Failed to parse HTML to dictionary") ∧
    _build_dom_tree eval_page = Raise err ∧
    ∀ limit, get_clickable_elements limit eval_page = Raise err.
Proof.
  intros Hmap Hroot Hasm Hstr Hbad.
  assert (∃ err, (err = KeyError root_id ∨
                  err = ValueError "Failed to parse HTML to dictionary") ∧
                 _build_dom_tree eval_page = Raise err) as (err & Herr & H).
  { unfold _build_dom_tree. rewrite Hmap, Hroot. simpl. rewrite Hasm. simpl.
    unfold resolve_root. rewrite Hstr. simpl.
    destruct Hbad as [-> | (a & t & -> & ->)]; eauto. }
  exists err. split; [done|]. split; [done|].
  intros limit. unfold get_clickable_elements. by rewrite H.
Qed.

Lemma unresolved_root_raises_witness :
  ∃ err, (err = KeyError "7" ∨
          err = ValueError "Failed to parse HTML to dictionary") ∧
    _build_dom_tree example_missing_root = Raise err ∧
    ∀ limit, get_clickable_elements limit example_missing_root = Raise err.
Proof.
  eapply (unresolved_root_raises example_missing_root (JNum 7)
            [("1", hi_record); ("2", div_record)]);
    [reflexivity | reflexivity | reflexivity | reflexivity | left; reflexivity].
Defined.

(** C6: an empty or missing record decodes to "no node" with an empty list
    of child identifiers; the assembler prints a line for it and goes on with
    the next entry, so that the run ends as it would without that entry, the
    line apart. *)
Theorem empty_record_skipped d :
  truthy d = false →
  _parse_node d = Return (None, JArr []) ∧
  (∀ st k, process_entry st (k, d) = Return (print (NodeIsNone k d) st)) ∧
  (∀ pre k post,
     same_tree (assemble (pre ++ (k, d) :: post)) (assemble (pre ++ post)) ∧
     ∀ st, assemble (pre ++ (k, d) :: post) = Return st →
           NodeIsNone k d ∈ printed st).
Proof.
  intros Hd.
  assert (Hp : _parse_node d = Return (None, JArr []))
    by (unfold _parse_node; by rewrite Hd).
  assert (Hstep : ∀ st k, process_entry st (k, d)
                          = Return (print (NodeIsNone k d) st))
    by (intros; apply process_entry_Return; by left).
  split; [done|]. split; [done|].
  intros pre k post. unfold assemble.
  rewrite !for_each_app.
  destruct (for_each process_entry pre initial_state) as [st1| |]; simpl;
    [|done..].
  rewrite Hstep. simpl. split.
  - by apply for_each_same_tree; [intros; apply process_entry_same_tree|..].
  - intros st H. eapply for_each_printed; [done|]. simpl.
    apply elem_of_app. right. by apply list_elem_of_singleton.
Qed.

Lemma empty_record_skipped_witness :
  _parse_node (JObj []) = Return (None, JArr []) ∧
  ∃ st, assemble [("1", hi_record); ("3", JObj []); ("2", div_record)]
          = Return st ∧
        NodeIsNone "3" (JObj []) ∈ printed st ∧
        same_tree (Return st) (assemble [("1", hi_record); ("2", div_record)]).
Proof.
  destruct (empty_record_skipped (JObj []) eq_refl) as (Hp & _ & H).
  split; [exact Hp|].
  destruct (H [("1", hi_record)] "3" [("2", div_record)]) as [Hsame Hprinted].
  eexists. split; [reflexivity|]. split.
  - apply Hprinted. reflexivity.
  - exact Hsame.
Defined.

(** C2, as the specification words it: in the tree of [example_bottom_up]
    the root holds the element [div] in its child list, yet the parent of
    [div] is not the root; it is unset. *)
Lemma example_bottom_up_parent_unset :
  ∃ st root, _build_dom_tree example_bottom_up = Return (st, root) ∧
             ¬ parents_linked (heap st).
Proof.
  do 2 eexists. split; [reflexivity|]. simpl.
  intros H. specialize (H 2 _ 1 _ eq_refl ltac:(set_solver) eq_refl).
  discriminate H.
Qed.

End AssemblerClaims.

Section Invariant.

Implicit Types (st : state) (k s : string) (d id : json) (a c : addr)
  (e : DOMElementNode) (n : DOMBaseNode) (items : list (string * json)).

Lemma avail_of_snoc items k d :
  avail_of (items ++ [(k, d)])
  = avail_of items ++ match decoded d with Some _ => [k] | None => [] end.
Proof.
  unfold avail_of. rewrite filter_app, fmap_app. f_equal.
  rewrite filter_cons, filter_nil. simpl.
  destruct (decide (is_Some (decoded d))) as [[n Hn]|Hn].
  - by rewrite Hn.
  - destruct (decoded d); [|done]. exfalso. apply Hn. by eexists.
Qed.

Lemma elem_of_avail_of items k :
  k ∈ avail_of items ↔ ∃ d n, (k, d) ∈ items ∧ decoded d = Some n.
Proof.
  unfold avail_of. rewrite list_elem_of_fmap. split.
  - intros ([k' d] & -> & [[n Hn] Hin]%list_elem_of_filter). by exists d, n.
  - intros (d & n & Hin & Hn). exists (k, d). split; [done|].
    apply list_elem_of_filter. split; [by exists n | done].
Qed.

Lemma avail_of_keys items k : k ∈ avail_of items → k ∈ items.*1.
Proof.
  intros (d & n & Hin & _)%elem_of_avail_of.
  apply list_elem_of_fmap. by exists (k, d).
Qed.

Lemma decoded_Some d n :
  decoded d = Some n ↔ ∃ ids, _parse_node d = Return (Some n, ids).
Proof.
  unfold decoded. destruct (_parse_node d) as [[[n'|] ids]| |]; split;
    try done; try (by intros [? ?]).
  - intros [= ->]. by exists ids.
  - by intros (ids' & [= -> _]).
Qed.

Lemma resolves_weaken (m1 m2 : gmap string addr) id c :
  m1 ⊆ m2 → resolves m1 id c → resolves m2 id c.
Proof. intros Hsub (s & Hs & Hc). exists s. eauto using lookup_weaken. Qed.

Lemma assembled_initial : assembled [] initial_state.
Proof.
  split; simpl.
  - intros k a. by rewrite lookup_empty.
  - intros k. rewrite lookup_empty. split; [by intros [] | by intros ?%elem_of_nil].
  - intros k1 k2 a. by rewrite lookup_empty.
  - intros a. lia.
  - by intros k d n0 ids ?%elem_of_nil.
Qed.

(** A step of the loop on an entry with a new key keeps [assembled]. *)
Lemma assembled_step done st k d st' :
  assembled done st → k ∉ done.*1 →
  process_entry st (k, d) = Return st' →
  assembled (done ++ [(k, d)]) st'.
Proof.
  intros [Hlt Hdom Hinj Hcover Hentry] Hk.
  intros [[Hp ->]|(n & ids & l & cs & Hp & Hl & Hcs & ->)]%process_entry_Return.
  - assert (Hdec : decoded d = None) by (unfold decoded; by rewrite Hp).
    split; simpl; try done.
    + intros k'. by rewrite avail_of_snoc, Hdec, app_nil_r.
    + intros k' d' n0 ids' [Hin|[= -> ->]%list_elem_of_singleton]%elem_of_app Hp'.
      * by eapply Hentry.
      * congruence.
  - assert (Hdec : decoded d = Some n) by (apply decoded_Some; eauto).
    assert (Hfresh : node_map st !! k = None).
    { apply eq_None_not_Some. intros ?%Hdom%avail_of_keys. done. }
    assert (Hsub : node_map st ⊆ <[k:=length (heap st)]> (node_map st))
      by by apply insert_subseteq.
    split; simpl.
    + intros k' a. rewrite length_app. simpl.
      intros [[_ <-]|[_ ?%Hlt]]%lookup_insert_Some; lia.
    + intros k'. rewrite avail_of_snoc, Hdec, elem_of_app, list_elem_of_singleton.
      rewrite lookup_insert_is_Some', <-Hdom. split; intros [?|?]; auto.
    + intros k1 k2 a.
      intros [[<- <-]|[? H1]]%lookup_insert_Some
             [[<- Ha]|[? H2]]%lookup_insert_Some; try done.
      * apply Hlt in H2. lia.
      * apply Hlt in H1. lia.
      * by eapply Hinj.
    + intros a. rewrite length_app. simpl. intros Ha.
      destruct (decide (a = length (heap st))) as [->|Hne].
      * exists k. apply lookup_insert_eq.
      * destruct (Hcover a) as [k' Hk']; [lia|].
        exists k'. rewrite lookup_insert_ne; [done|].
        intros ->. by rewrite Hfresh in Hk'.
    + intros k' d' n0 ids' [Hin|[= -> ->]%list_elem_of_singleton]%elem_of_app Hp'.
      * destruct (Hentry _ _ _ _ Hin Hp') as (a & n' & l' & Ha & Hn' & Hu & Hl' & Hf).
        exists a, n', l'. split.
        { rewrite lookup_insert_ne; [done|]. intros <-. apply Hk.
          apply list_elem_of_fmap. by exists (k, d'). }
        split; [by apply lookup_app_l_Some|]. split; [done|]. split; [done|].
        eapply Forall2_impl; [done|]. intros. by eapply resolves_weaken.
      * rewrite Hp in Hp'. injection Hp' as <- <-.
        exists (length (heap st)), (with_children cs n), l.
        split; [apply lookup_insert_eq|].
        split; [by apply list_lookup_middle|].
        split; [by rewrite unlink_with_children; apply (unlink_decoded d)|].
        split; [done|].
        destruct n as [e|t]; [done|].
        apply parse_node_text_ids in Hp as ->. injection Hl as <-.
        apply Forall2_nil_inv_l in Hcs as ->. constructor.
Qed.

Lemma NoDup_keys_split items pre k d post :
  NoDup items.*1 → items = pre ++ (k, d) :: post → k ∉ pre.*1.
Proof.
  intros Hnd ->. rewrite fmap_app, fmap_cons in Hnd. simpl in Hnd.
  apply NoDup_app in Hnd as (_ & Hdisj & _).
  intros Hin. apply (Hdisj _ Hin). by left.
Qed.

(** With distinct keys, a run that returns has established [assembled]. *)
Lemma assemble_assembled items st :
  NoDup items.*1 → assemble items = Return st → assembled items st.
Proof.
  intros Hnd H.
  apply (for_each_invariant process_entry (λ done x, x.1 ∉ done.*1) assembled)
    with (done := []) (xs := items) (s := initial_state) (s' := st); try done.
  - intros done [k d] st0 st1 ? ? ?. by eapply assembled_step.
  - apply assembled_initial.
  - intros pre [k d] post Hsplit. simpl. by eapply NoDup_keys_split.
Qed.

(** No node of an assembled store has a parent. *)
Lemma assembled_parent items st a n :
  assembled items st → heap st !! a = Some n → node_parent n = None.
Proof.
  intros Hasm Hn.
  destruct (asm_cover _ _ Hasm a) as [k Hk]; [by eapply lookup_lt_Some|].
  assert (k ∈ avail_of items) as (d & n0 & Hin & [ids Hp]%decoded_Some)%elem_of_avail_of
    by (apply (asm_dom _ _ Hasm); eauto).
  destruct (asm_entry _ _ Hasm _ _ _ _ Hin Hp) as (a' & n' & l & Ha' & Hn' & Hu & _).
  simplify_eq. apply parse_node_unlinked in Hp as [_ Hpar].
  unfold unlink in Hpar. by rewrite node_parent_with_children in Hpar.
Qed.

End Invariant.

Section Links.

Implicit Types (st : state) (k s : string) (d id : json) (a c : addr)
  (e : DOMElementNode) (n : DOMBaseNode) (items : list (string * json)).

Lemma build_dom_tree_Return eval_page st root :
  _build_dom_tree eval_page = Return (st, root) ↔
  ∃ js_root_id,
    py_getitem eval_page "map" = Return (JObj (entries eval_page)) ∧
    py_getitem eval_page "rootId" = Return js_root_id ∧
    assemble (entries eval_page) = Return st ∧
    resolve_root js_root_id st = Return root.
Proof.
  unfold _build_dom_tree, entries. split.
  - intros H. apply bind_Return in H as (m & Hm & H).
    apply bind_Return in H as (rid & Hrid & H).
    apply bind_Return in H as (items & Hitems & H).
    apply bind_Return in H as (st1 & Hst1 & H).
    apply bind_Return in H as (r & Hr & [= <- <-]).
    destruct m; try done. injection Hitems as ->.
    destruct eval_page as [| | | | |top]; try done.
    apply getitem_Return in Hm. rewrite Hm. exists rid.
    split; [by apply getitem_Return|]. done.
  - intros (rid & Hm & Hrid & Hasm & Hroot).
    destruct eval_page as [| | | | |top]; try done.
    rewrite Hm, Hrid. simpl. rewrite Hasm. simpl. by rewrite Hroot.
Qed.

Lemma resolve_root_Return js_root_id st root :
  resolve_root js_root_id st = Return root ↔
  ∃ e, resolves (node_map st) js_root_id root ∧
       heap st !! root = Some (Element e).
Proof.
  unfold resolve_root, resolves. split.
  - intros H. apply bind_Return in H as (s & Hs & H).
    destruct (node_map st !! s) as [a|] eqn:Ha; [|done].
    destruct (heap st !! a) as [[e|t]|] eqn:He; try done.
    injection H as <-. eauto.
  - intros (e & (s & -> & Hs) & He). simpl. by rewrite Hs, He.
Qed.

(** Distinct identifiers name distinct nodes. *)
Lemma resolved_NoDup (m : gmap string addr) l cs :
  (∀ k1 k2 a, m !! k1 = Some a → m !! k2 = Some a → k1 = k2) →
  Forall2 (resolves m) l cs → distinct_ids l → NoDup cs.
Proof.
  intros Hinj Hf Hdist. apply NoDup_alt. intros i j c Hi Hj.
  destruct (Forall2_lookup_r _ _ _ _ _ Hf Hi) as (idi & Hli & si & Hsi & Hmi).
  destruct (Forall2_lookup_r _ _ _ _ _ Hf Hj) as (idj & Hlj & sj & Hsj & Hmj).
  assert (si = sj) as -> by by eapply Hinj.
  by eapply Hdist.
Qed.

(** A node of the tree other than the root is in the child list of an
    element of the tree. *)
Lemma in_tree_holder (h : list DOMBaseNode) root b :
  in_tree h root b → b ≠ root →
  ∃ a e, in_tree h root a ∧ h !! a = Some (Element e) ∧ b ∈ children e.
Proof. intros [|a e c Ha He Hc] Hne; [done|]. by exists a, e. Qed.

(** C2, amended: when the function returns, no parent back-reference is
    set: the parent of every node is still [None].  The links are the child
    lists alone.  Every node of the tree other than the root is in the child
    list of an element of the tree; every element is the node decoded from
    one of the records, and its child list names, in order, the nodes of the
    record's child identifiers, so that it holds each child exactly once
    when the record lists no identifier twice. *)
Theorem assembled_links (eval_page : json) st (root : addr) :
  NoDup (entries eval_page).*1 →
  _build_dom_tree eval_page = Return (st, root) →
  (∀ a n, heap st !! a = Some n → node_parent n = None) ∧
  (∀ b, in_tree (heap st) root b → b ≠ root →
        ∃ a e, in_tree (heap st) root a ∧
               heap st !! a = Some (Element e) ∧ b ∈ children e) ∧
  (∀ a e, heap st !! a = Some (Element e) →
     ∃ k d ids l,
       (k, d) ∈ entries eval_page ∧ node_map st !! k = Some a ∧
       _parse_node d = Return (Some (unlink (Element e)), ids) ∧
       py_iter ids = Return l ∧
       Forall2 (resolves (node_map st)) l (children e) ∧
       (distinct_ids l → NoDup (children e))).
Proof.
  intros Hnd (rid & _ & _ & Hasm & _)%build_dom_tree_Return.
  apply assemble_assembled in Hasm; [|done].
  split; [intros a n; by apply (assembled_parent (entries eval_page))|].
  split; [intros b; apply in_tree_holder|].
  intros a e He.
  destruct (asm_cover _ _ Hasm a) as [k Hk]; [by eapply lookup_lt_Some|].
  assert (k ∈ avail_of (entries eval_page))
    as (d & n0 & Hin & [ids Hp]%decoded_Some)%elem_of_avail_of
    by (apply (asm_dom _ _ Hasm); eauto).
  destruct (asm_entry _ _ Hasm _ _ _ _ Hin Hp)
    as (a' & n' & l & Ha' & Hn' & Hu & Hl & Hf).
  simplify_eq. exists k, d, ids, l. simpl in Hf.
  repeat (split; [done|]).
  intros Hdist.
  by eapply resolved_NoDup; [apply (asm_inj _ _ Hasm)|..].
Qed.

Lemma assembled_links_witness :
  ∃ st root,
    _build_dom_tree example_bottom_up = Return (st, root) ∧
    (∀ a n, heap st !! a = Some n → node_parent n = None) ∧
    (∀ a e, heap st !! a = Some (Element e) →
       ∃ k d ids l,
         (k, d) ∈ entries example_bottom_up ∧ node_map st !! k = Some a ∧
         _parse_node d = Return (Some (unlink (Element e)), ids) ∧
         py_iter ids = Return l ∧
         Forall2 (resolves (node_map st)) l (children e) ∧
         (distinct_ids l → NoDup (children e))).
Proof.
  do 2 eexists. split; [reflexivity|].
  destruct (assembled_links example_bottom_up _ _
              ltac:(apply (bool_decide_eq_true_1 _); vm_compute; reflexivity)
              eq_refl)
    as (Hparent & _ & Hlinks).
  split; [exact Hparent | exact Hlinks].
Defined.

End Links.

Section Index.

Context (h : list DOMBaseNode).
Implicit Types (a b c : addr) (e : DOMElementNode)
  (m : gmap (Z + string) addr) (key : Z + string).

Lemma in_tree_trans a b c : in_tree h a b → in_tree h b c → in_tree h a c.
Proof.
  intros Hab Hbc. induction Hbc as [|x e c Hx IH He Hc]; [done|].
  by eapply in_tree_child.
Qed.

Lemma in_tree_below a e c b :
  h !! a = Some (Element e) → c ∈ children e → in_tree h c b → in_tree h a b.
Proof.
  intros He Hc Hcb. eapply in_tree_trans; [|done].
  eapply in_tree_child; [apply in_tree_root|done..].
Qed.

(** A node of the tree is the root, or it is in the tree of a child of the
    root. *)
Lemma in_tree_inv a b :
  in_tree h a b →
  b = a ∨ ∃ e c, h !! a = Some (Element e) ∧ c ∈ children e ∧ in_tree h c b.
Proof.
  induction 1 as [|x e c Hx IH He Hc]; [by left|]. right.
  destruct IH as [->|(e' & c' & He' & Hc' & Hin)].
  - exists e, c. split; [done|]. split; [done|]. apply in_tree_root.
  - exists e', c'. split; [done|]. split; [done|]. by eapply in_tree_child.
Qed.

Lemma has_handle_fun a key1 key2 :
  has_handle h a key1 → has_handle h a key2 → key1 = key2.
Proof. intros (e1 & H1 & _ & Hk1) (e2 & H2 & _ & Hk2). congruence. Qed.

(** Recording the handle of the element at [a]. *)
Lemma record_handle_spec a e m :
  unique_handles h → hashable_handles h → sound_index h m →
  h !! a = Some (Element e) →
  ∃ m', record_handle a e m = Return m' ∧
    ∀ key b, m' !! key = Some b ↔
             m !! key = Some b ∨ (b = a ∧ has_handle h a key).
Proof.
  intros Huniq Hhash Hsound He. unfold record_handle.
  destruct (Hhash a e He) as [Hnull|[key0 Hkey0]].
  - rewrite Hnull. exists m. split; [done|]. intros key b. split; [by left|].
    intros [?|[_ (e' & He' & Hset & _)]]; [done|]. congruence.
  - assert (Hset : highlight_index e ≠ JNull)
      by (intros Hnull; by rewrite Hnull in Hkey0).
    assert (Ha : has_handle h a key0) by by exists e.
    exists (<[key0 := a]> m). split.
    { clear Ha. by destruct (highlight_index e); simplify_eq/=. }
    intros key b. rewrite lookup_insert_Some. split.
    + intros [[<- <-]|[_ ?]]; [by right | by left].
    + intros [Hm|[-> Hb]].
      * destruct (decide (key0 = key)) as [<-|Hne]; [|by right].
        left. split; [done|]. apply Hsound in Hm. by eapply Huniq.
      * left. split; [|done]. by eapply has_handle_fun.
Qed.

(** The traversal: when the tree below [a] fits into the depth the
    interpreter allows, [process_node] returns the map extended with one entry
    for each element of that tree whose handle is set. *)
Lemma process_node_spec :
  unique_handles h → hashable_handles h →
  ∀ depth a m, fits h depth a → sound_index h m →
    ∃ m', process_node depth h a m = Return m' ∧
      ∀ key b, m' !! key = Some b ↔
               m !! key = Some b ∨ (in_tree h a b ∧ has_handle h b key).
Proof.
  intros Huniq Hhash.
  induction depth as [|depth IH]; intros a m Hfits Hsound;
    [by inversion Hfits|].
  assert (Hloop : ∀ cs m1,
    (∀ c, c ∈ cs → fits h depth c) → sound_index h m1 →
    ∃ m', for_each (λ m0 child, process_node depth h child m0) cs m1
          = Return m' ∧
      ∀ key b, m' !! key = Some b ↔
               m1 !! key = Some b ∨
               ∃ c, c ∈ cs ∧ in_tree h c b ∧ has_handle h b key).
  { induction cs as [|c cs IHcs]; intros m1 Hcs Hm1; simpl.
    - exists m1. split; [done|]. intros key b. split; [by left|].
      by intros [?|(c & ?%elem_of_nil & _)].
    - destruct (IH c m1) as (m2 & -> & Hm2); [apply Hcs; by left | done |].
      simpl. destruct (IHcs m2) as (m' & -> & Hm').
      { intros c' Hc'. apply Hcs. by right. }
      { intros key b [?|[_ ?]]%Hm2; auto. }
      exists m'. split; [done|]. intros key b. rewrite Hm', Hm2. split.
      + intros [[?|[? ?]]|(c' & Hc' & ? & ?)]; [by left|right..].
        * exists c. split; [by left | done].
        * exists c'. split; [by right | done].
      + intros [?|(c' & [->|Hc']%elem_of_cons & ? & ?)];
          [by left; left | by left; right | right].
        by exists c'. }
  simpl. inversion Hfits as [d a' t Ht|d a' e He Hcs]; subst.
  - rewrite Ht. exists m. split; [done|]. intros key b. split; [by left|].
    intros [?|[Hin (e' & He' & _)]]; [done|].
    apply in_tree_inv in Hin as [->|(e & c & He & _)]; congruence.
  - rewrite He.
    destruct (record_handle_spec a e m) as (m1 & -> & Hm1); [done..|]. simpl.
    destruct (Hloop (children e) m1) as (m' & -> & Hm'); [done| |].
    { intros key b [?|[-> ?]]%Hm1; auto. }
    exists m'. split; [done|]. intros key b. rewrite Hm', Hm1. split.
    + intros [[?|[-> ?]]|(c & Hc & Hin & ?)]; [by left|right..].
      * split; [apply in_tree_root | done].
      * split; [by eapply in_tree_below | done].
    + intros [?|[Hin Hb]]; [by left; left|].
      apply in_tree_inv in Hin as [->|(e' & c & He' & Hc & Hin)].
      * left. by right.
      * right. exists c. by simplify_eq.
Qed.

(** The selector map of a tree that fits: its entries are exactly the
    elements of the tree whose handle is set, each under its own handle, and
    there are as many entries as such elements. *)
Lemma create_selector_map_spec limit root :
  unique_handles h → hashable_handles h → fits h limit root →
  ∃ m, _create_selector_map limit h root = Return m ∧
    (∀ key b, m !! key = Some b ↔ in_tree h root b ∧ has_handle h b key) ∧
    (∀ nodes : list addr, NoDup nodes →
       (∀ b, b ∈ nodes ↔ in_tree h root b ∧ ∃ key, has_handle h b key) →
       size m = length nodes).
Proof.
  intros Huniq Hhash Hfits. unfold _create_selector_map.
  destruct (process_node_spec Huniq Hhash limit root ∅ Hfits)
    as (m & Hm & Hspec); [by intros key b; rewrite lookup_empty|].
  exists m. split; [done|].
  assert (Hiff : ∀ key b,
            m !! key = Some b ↔ in_tree h root b ∧ has_handle h b key).
  { intros key b. rewrite Hspec, lookup_empty.
    split; [by intros [?|?] | by right]. }
  split; [done|]. intros nodes Hnd Hnodes.
  rewrite <-length_map_to_list, <-(length_fmap snd).
  apply Permutation_length, NoDup_Permutation; [|done|].
  - apply NoDup_fmap_2_strong; [|apply NoDup_map_to_list].
    intros [k1 b1] [k2 b2] H1%elem_of_map_to_list H2%elem_of_map_to_list.
    simpl. intros <-. f_equal.
    apply Hiff in H1 as [_ H1], H2 as [_ H2]. by eapply has_handle_fun.
  - intros b. rewrite Hnodes, list_elem_of_fmap. split.
    + intros ([key b'] & -> & Hin%elem_of_map_to_list). simpl.
      apply Hiff in Hin as [? ?]. eauto.
    + intros [Hin [key Hkey]]. exists (key, b). split; [done|].
      apply elem_of_map_to_list, Hiff. done.
Qed.

End Index.

Section WellFormed.

Implicit Types (st : state) (k s : string) (d id : json) (a c : addr)
  (e : DOMElementNode) (n : DOMBaseNode) (items : list (string * json)).

Lemma bottom_up_split items : ∀ done pre x post,
  bottom_up done items = true → items = pre ++ x :: post →
  entry_ok (avail_of (done ++ pre)) x.2 = true.
Proof.
  induction items as [|y items IH]; intros done pre x post Hb Hsplit.
  - by destruct pre.
  - simpl in Hb. apply andb_true_iff in Hb as [Hy Hb].
    destruct pre as [|z pre]; simpl in Hsplit; injection Hsplit as -> ->.
    + by rewrite app_nil_r.
    + rewrite (cons_middle z done pre), app_assoc. by eapply IH.
Qed.

Lemma dict_get_elem_of items k d : dict_get k items = Some d → (k, d) ∈ items.
Proof.
  induction items as [|[k' d'] items IH]; simpl; [done|].
  case_bool_decide as Hk.
  - intros [= ->]. subst. by left.
  - intros H. right. by apply IH.
Qed.

(** Identifiers that name decoded nodes resolve, to nodes that exist. *)
Lemma ids_ok_resolve (m : gmap string addr) avail l bound :
  (∀ s, s ∈ avail → ∃ c, m !! s = Some c ∧ c < bound) →
  ids_ok avail l = true →
  ∃ cs, Forall2 (resolves m) l cs ∧ Forall (λ c, c < bound) cs.
Proof.
  intros Havail. induction l as [|id l IH]; simpl.
  - intros _. exists []. by split; constructor.
  - intros [Hid Hl]%andb_true_iff. destruct (IH Hl) as (cs & Hcs & Hlt).
    destruct (py_str id) as [s| |] eqn:Hs; try done.
    apply bool_decide_eq_true in Hid. destruct (Havail s Hid) as (c & Hc & Hb).
    exists (c :: cs). split; constructor; try done. by exists s.
Qed.

(** A step of the loop on an entry that is in order returns, and children
    stay below their holder. *)
Lemma well_formed_step done st k d :
  assembled done st → children_below (heap st) →
  k ∉ done.*1 → entry_ok (avail_of done) d = true →
  ∃ st', process_entry st (k, d) = Return st' ∧ children_below (heap st') ∧
         length (heap st') ≤ S (length (heap st)).
Proof.
  intros Hasm Hbelow Hk Hok. unfold entry_ok in Hok.
  destruct (_parse_node d) as [[[n|] ids]| |] eqn:Hp; try done.
  - apply andb_true_iff in Hok as [_ Hok].
    destruct (py_iter ids) as [l| |] eqn:Hl; try done.
    destruct (ids_ok_resolve (node_map st) (avail_of done) l (length (heap st)))
      as (cs & Hcs & Hlt); [|done|].
    { intros s [c Hc]%(asm_dom _ _ Hasm). exists c. split; [done|].
      by eapply (asm_lt _ _ Hasm). }
    assert (Hfresh : node_map st !! k = None).
    { apply eq_None_not_Some. by intros ?%(asm_dom _ _ Hasm)%avail_of_keys. }
    eexists. split; [|split].
    + apply process_entry_Return. right. exists n, ids, l, cs.
      do 2 (split; [done|]). split; [|done].
      eapply Forall2_impl; [done|]. intros id c.
      by apply resolves_weaken, insert_subseteq.
    + simpl. intros a n' c [[_ Hn']|[-> <-]]%lookup_snoc_Some Hc.
      * by eapply Hbelow.
      * rewrite Forall_forall in Hlt. apply Hlt.
        destruct n as [e|t]; [done|]. by apply elem_of_nil in Hc.
    + simpl. rewrite length_app. simpl. lia.
  - assert (ids = JArr []) as ->.
    { revert Hp. unfold _parse_node. destruct (truthy d); simpl; [|congruence].
      destruct d as [| | | | |kvs]; try done.
      destruct (is_text_kind kvs); intros H;
        by apply bind_Return in H as (? & _ & [=]). }
    eexists. split; [|split].
    + apply process_entry_Return. by left.
    + done.
    + simpl. lia.
Qed.

(** A well-formed list of entries is assembled without an exception. *)
Lemma well_formed_assemble items :
  NoDup items.*1 → bottom_up [] items = true →
  ∃ st, assemble items = Return st ∧ assembled items st ∧
        children_below (heap st) ∧ length (heap st) ≤ length items.
Proof.
  intros Hnd Hb.
  destruct (for_each_returns process_entry
    (λ done x, (x.1 ∉ done.*1) ∧ entry_ok (avail_of done) (x.2) = true)
    (λ done st0, assembled done st0 ∧ children_below (heap st0) ∧
                 length (heap st0) ≤ length done)) with
    (xs := items) (done := @nil (string * json)) (s := initial_state)
    as (st & Hst & Hasm & Hbelow & Hlen).
  - intros done [k d] st0 (Hasm & Hbelow & Hlen) [Hk Hok]. simpl in *.
    destruct (well_formed_step done st0 k d) as (st1 & Hst1 & Hb1 & Hl1);
      [done..|].
    exists st1. split; [done|]. split; [by eapply assembled_step|].
    split; [done|]. rewrite length_app. simpl. lia.
  - split; [apply assembled_initial|]. split; [|done].
    by intros a n c ?.
  - intros pre [k d] post Hsplit. simpl. split.
    + by eapply NoDup_keys_split.
    + by apply (bottom_up_split items [] pre (k, d) post).
  - by exists st.
Qed.

(** Every element of the store carries the handle of its record. *)
Lemma assembled_record items st a e :
  assembled items st → heap st !! a = Some (Element e) →
  ∃ k d, (k, d) ∈ items ∧ node_map st !! k = Some a ∧
         decoded d = Some (unlink (Element e)).
Proof.
  intros Hasm He.
  destruct (asm_cover _ _ Hasm a) as [k Hk]; [by eapply lookup_lt_Some|].
  assert (k ∈ avail_of items)
    as (d & n0 & Hin & [ids Hp]%decoded_Some)%elem_of_avail_of
    by (apply (asm_dom _ _ Hasm); eauto).
  destruct (asm_entry _ _ Hasm _ _ _ _ Hin Hp) as (a' & n' & l & ? & ? & ? & _).
  simplify_eq. exists k, d. do 2 (split; [done|]). apply decoded_Some. eauto.
Qed.

Lemma bottom_up_handle_ok items k d n :
  bottom_up [] items = true → (k, d) ∈ items → decoded d = Some n →
  handle_ok n = true.
Proof.
  intros Hb (pre & post & Hsplit)%list_elem_of_split Hn.
  pose proof (bottom_up_split items [] pre (k, d) post Hb Hsplit) as Hok.
  unfold entry_ok in Hok. simpl in Hok. apply decoded_Some in Hn as [ids Hp].
  rewrite Hp in Hok. by apply andb_true_iff in Hok as [? _].
Qed.

Lemma assembled_integer_handles items st :
  bottom_up [] items = true → assembled items st →
  integer_handles (heap st).
Proof.
  intros Hb Hasm a e He.
  destruct (assembled_record _ _ _ _ Hasm He) as (k & d & Hin & _ & Hd).
  pose proof (bottom_up_handle_ok _ _ _ _ Hb Hin Hd) as Hok. simpl in Hok.
  destruct (highlight_index e); try done; eauto.
Qed.

Lemma NoDup_omap_eq {A B} (f : A → option B) (l : list A) x y z :
  NoDup (omap f l) → x ∈ l → y ∈ l → f x = Some z → f y = Some z → x = y.
Proof.
  induction l as [|u l IH]; simpl; [by intros _ ?%elem_of_nil|].
  intros Hnd [->|Hx]%elem_of_cons [->|Hy]%elem_of_cons Hfx Hfy; [done|..].
  - rewrite Hfx in Hnd. apply NoDup_cons in Hnd as [Hz _].
    destruct Hz. apply list_elem_of_omap. eauto.
  - rewrite Hfy in Hnd. apply NoDup_cons in Hnd as [Hz _].
    destruct Hz. apply list_elem_of_omap. eauto.
  - apply IH; try done. destruct (f u); [by apply NoDup_cons in Hnd as [_ ?]|done].
Qed.

Lemma assembled_unique_handles items st :
  bottom_up [] items = true → NoDup (item_handles items) →
  assembled items st → unique_handles (heap st).
Proof.
  intros Hb Hnd Hasm a b key (ea & Ha & Hseta & Hka) (eb & Hb' & Hsetb & Hkb).
  destruct (assembled_record _ _ _ _ Hasm Ha) as (k1 & d1 & Hin1 & Hk1 & Hd1).
  destruct (assembled_record _ _ _ _ Hasm Hb') as (k2 & d2 & Hin2 & Hk2 & Hd2).
  destruct (assembled_integer_handles _ _ Hb Hasm a ea Ha) as [?|[hd Hhd]];
    [done|].
  destruct (assembled_integer_handles _ _ Hb Hasm b eb Hb') as [?|[hd' Hhd']];
    [done|].
  rewrite Hhd in Hka. rewrite Hhd' in Hkb. simpl in *. simplify_eq.
  assert ((k1, d1) = (k2, d2)) as [= -> ->].
  { apply (NoDup_omap_eq (λ kd, record_handle_of kd.2) items _ _ hd' Hnd);
      [done..| |]; unfold record_handle_of; simpl.
    - rewrite Hd1. simpl. by rewrite Hhd.
    - rewrite Hd2. simpl. by rewrite Hhd'. }
  congruence.
Qed.

Lemma fits_mono (h : list DOMBaseNode) (i j : nat) a :
  fits h i a → i ≤ j → fits h j a.
Proof.
  intros Hf. revert j.
  induction Hf as [i x t Ht|i x e' He' Hcs IHcs]; intros j Hle.
  - destruct j; [lia|]. by eapply fits_text.
  - destruct j; [lia|]. eapply fits_element; [done|].
    intros c' Hc'. apply IHcs; [done|lia].
Qed.

(** In a store where children lie below their holder, the tree below a node
    is no deeper than the node's address allows. *)
Lemma children_below_fits (h : list DOMBaseNode) :
  children_below h → ∀ a, a < length h → fits h (S a) a.
Proof.
  intros Hbelow a. induction (lt_wf a) as [a _ IH]. intros Ha.
  destruct (lookup_lt_is_Some_2 h a Ha) as [[e|t] Hn].
  - apply (fits_element _ _ _ e); [done|]. intros c Hc.
    assert (Hca : c < a) by by eapply (Hbelow a (Element e)).
    apply (fits_mono h (S c)); [|lia]. apply IH; lia.
  - by eapply fits_text.
Qed.

Lemma root_ok_resolve items st js_root_id :
  assembled items st → root_ok js_root_id items = true →
  ∃ root, resolve_root js_root_id st = Return root.
Proof.
  intros Hasm Hroot. unfold root_ok in Hroot.
  destruct (py_str js_root_id) as [k| |] eqn:Hk; try done.
  destruct (dict_get k items) as [d|] eqn:Hd; [|done].
  destruct (decoded d) as [[e0|t]|] eqn:Hdec; try done.
  apply dict_get_elem_of in Hd. apply decoded_Some in Hdec as [ids Hp].
  destruct (asm_entry _ _ Hasm _ _ _ _ Hd Hp) as (a & n & l & Ha & Hn & Hu & _).
  destruct n as [e|t]; [|done].
  exists a. apply resolve_root_Return. exists e. split; [by exists k|done].
Qed.

End WellFormed.

Section IndexClaim.

Lemma integer_handles_hashable (h : list DOMBaseNode) :
  integer_handles h → hashable_handles h.
Proof.
  intros Hint a e He. destruct (Hint a e He) as [?|[hd Hhd]]; [by left|].
  right. rewrite Hhd. by eexists.
Qed.

(** C3: for a well-formed producer output the function returns a tree, and,
    whenever the interpreter allows the depth of that tree (the number of
    decoded nodes is always enough), the selector map returned with it has
    exactly one entry for each element of the tree whose handle is set: such
    an element is found under its own handle, there is no other entry, the
    handle stored in an indexed node is the key it is indexed under, and the
    number of entries is the number of such elements. *)
Theorem selector_map_exact (eval_page : json) :
  well_formed eval_page = true →
  ∃ st root,
    _build_dom_tree eval_page = Return (st, root) ∧
    length (heap st) ≤ length (entries eval_page) ∧
    fits (heap st) (length (heap st)) root ∧
    ∀ limit, fits (heap st) limit root →
      ∃ m,
        get_clickable_elements limit eval_page
          = Return (st, {| element_tree := root; selector_map := m |}) ∧
        (∀ key b, m !! key = Some b ↔
                  in_tree (heap st) root b ∧ has_handle (heap st) b key) ∧
        (∀ key b, m !! key = Some b →
                  ∃ e hd, heap st !! b = Some (Element e) ∧
                          highlight_index e = JNum hd ∧ key = inl hd) ∧
        (∀ nodes : list addr, NoDup nodes →
           (∀ b, b ∈ nodes ↔
                 in_tree (heap st) root b ∧ ∃ key, has_handle (heap st) b key) →
           size m = length nodes).
Proof.
  intros Hwf.
  destruct eval_page as [| | | | |top]; try done. simpl in Hwf.
  destruct (dict_get "map" top) as [[| | | | |items]|] eqn:Hmap; try done.
  destruct (dict_get "rootId" top) as [rid|] eqn:Hrid; [|done].
  apply andb_true_iff in Hwf as [Hwf Hroot].
  apply andb_true_iff in Hwf as [Hwf Hhandles].
  apply andb_true_iff in Hwf as [Hkeys Hbottom].
  apply bool_decide_eq_true in Hkeys, Hhandles.
  assert (Hentries : entries (JObj top) = items)
    by (unfold entries; by rewrite Hmap).
  destruct (well_formed_assemble items Hkeys Hbottom)
    as (st & Hst & Hasm & Hbelow & Hlen).
  destruct (root_ok_resolve items st rid Hasm Hroot) as [root Hres].
  assert (Hbuild : _build_dom_tree (JObj top) = Return (st, root)).
  { apply build_dom_tree_Return. exists rid. rewrite Hentries.
    split; [by apply getitem_Return|]. split; [by apply getitem_Return|]. done. }
  exists st, root. split; [done|]. split; [by rewrite Hentries|].
  assert (Hlt : root < length (heap st)).
  { apply resolve_root_Return in Hres as (e & _ & He).
    by eapply lookup_lt_Some. }
  split.
  { apply (fits_mono _ (S root)); [|lia]. by apply children_below_fits. }
  intros limit Hfits.
  pose proof (assembled_integer_handles _ _ Hbottom Hasm) as Hint.
  destruct (create_selector_map_spec (heap st) limit root)
    as (m & Hm & Hiff & Hsize); [|by apply integer_handles_hashable|done|].
  { by eapply assembled_unique_handles. }
  exists m. split; [|split; [done|split; [|done]]].
  - unfold get_clickable_elements. rewrite Hbuild. simpl. by rewrite Hm.
  - intros key b [_ (e & He & Hset & Hkey)]%Hiff.
    destruct (Hint b e He) as [?|[hd Hhd]]; [done|].
    exists e, hd. rewrite Hhd in Hkey. by simplify_eq/=.
Qed.

Lemma selector_map_exact_witness :
  ∃ st root,
    _build_dom_tree example_bottom_up = Return (st, root) ∧
    length (heap st) ≤ length (entries example_bottom_up) ∧
    fits (heap st) (length (heap st)) root ∧
    ∀ limit, fits (heap st) limit root →
      ∃ m,
        get_clickable_elements limit example_bottom_up
          = Return (st, {| element_tree := root; selector_map := m |}) ∧
        (∀ key b, m !! key = Some b ↔
                  in_tree (heap st) root b ∧ has_handle (heap st) b key) ∧
        (∀ key b, m !! key = Some b →
                  ∃ e hd, heap st !! b = Some (Element e) ∧
                          highlight_index e = JNum hd ∧ key = inl hd) ∧
        (∀ nodes : list addr, NoDup nodes →
           (∀ b, b ∈ nodes ↔
                 in_tree (heap st) root b ∧ ∃ key, has_handle (heap st) b key) →
           size m = length nodes).
Proof. apply (selector_map_exact example_bottom_up). reflexivity. Defined.

End IndexClaim.

(** * Further properties of the decoder *)

Section DecoderEdges.

Implicit Types (kvs : list (string * json)) (k : string) (v d : json).

(** The decoder answers "no node" for the empty records and for no other. *)
Lemma parse_node_None d ids :
  _parse_node d = Return (None, ids) ↔ truthy d = false ∧ ids = JArr [].
Proof.
  unfold _parse_node. destruct (truthy d); simpl.
  - split; [|by intros [? _]].
    destruct d as [| | | | |kvs]; try done.
    destruct (is_text_kind kvs); intros H;
      by apply bind_Return in H as (? & _ & [=]).
  - split; [by intros [= <-] | by intros [_ ->]].
Qed.

Lemma parse_viewport_info_full c vi :
  full_viewport c vi → parse_viewport_info c = Return vi.
Proof.
  intros (kvs & -> & Hx & Hy & Hw & Hh). unfold parse_viewport_info.
  apply getitem_Return in Hx, Hy, Hw, Hh. rewrite Hx, Hy, Hw, Hh. simpl.
  by destruct vi.
Qed.

Lemma parse_optional_Some {A} kvs k (parse : json → outcome A) c a :
  dict_get k kvs = Some c → parse c = Return a →
  parse_optional k parse kvs = Return (Some a).
Proof. intros Hc Ha. unfold parse_optional. by rewrite Hc, Ha. Qed.

(** X1: the decoder answers "no node" exactly for the records that are
    empty or missing (null, false, 0, the empty string, list and mapping),
    and then with an empty list of child identifiers; every other value that
    is not a mapping makes it raise [AttributeError]. *)
Theorem parse_node_no_node_iff d :
  (∀ ids, _parse_node d = Return (None, ids) ↔
          truthy d = false ∧ ids = JArr []) ∧
  (truthy d = true → (∀ kvs, d ≠ JObj kvs) →
   _parse_node d = Raise AttributeError).
Proof.
  split; [intros ids; apply parse_node_None|].
  intros Ht Hobj. unfold _parse_node. rewrite Ht. simpl.
  destruct d as [| | | | |kvs]; try done. by destruct (Hobj kvs).
Qed.

(** X2: an element record with a full [pageCoordinates] sub-record decodes
    to an element whose document geometry has exactly the input's corners,
    center, width and height, whether or not a viewport geometry is given. *)
Theorem parse_node_page_geometry kvs (tag xp c : json) (cs : CoordinateSet) :
  is_text_kind kvs = false →
  dict_get "tagName" kvs = Some tag →
  dict_get "xpath" kvs = Some xp →
  dict_get "pageCoordinates" kvs = Some c →
  full_coordinates c cs →
  optional_ok "viewportCoordinates" parse_coordinate_set kvs →
  optional_ok "viewport" parse_viewport_info kvs →
  ∃ e ids, _parse_node (JObj kvs) = Return (Some (Element e), ids) ∧
    page_coordinates e = Some cs ∧
    (viewport_coordinates e = None ↔
     dict_get "viewportCoordinates" kvs = None).
Proof.
  intros Hk Htag Hxp Hc Hfull [vc Hvc] [vi Hvi].
  do 2 eexists. split.
  { apply parse_node_element; [by eapply dict_get_Some_nonempty | done |].
    apply parse_element_Return; [done| |done..].
    by eapply parse_optional_Some, parse_coordinate_set_full. }
  simpl. split; [done|].
  rewrite <-(parse_optional_None kvs _ parse_coordinate_set), Hvc.
  split; intros; by simplify_eq.
Qed.

Lemma parse_node_page_geometry_witness :
  ∃ e ids, _parse_node scroll_record = Return (Some (Element e), ids) ∧
    page_coordinates e = Some box_geometry ∧
    (viewport_coordinates e = None ↔
     dict_get "viewportCoordinates" scroll_fields = None).
Proof.
  apply (parse_node_page_geometry scroll_fields (JStr "div")
           (JStr "/body/div") scroll_page_geometry box_geometry);
    try reflexivity.
  - pose proof (point := λ a b : Z,
      ex_intro (λ l, JObj [("x", JNum a); ("y", JNum b)] = JObj l ∧
                     l ≡ₚ [("x", JNum a); ("y", JNum b)]) _
               (conj eq_refl (reflexivity _))).
    eexists. split; [reflexivity|].
    repeat split; eexists; (split; [reflexivity | apply point]).
  - by exists None.
  - by exists (Some scroll_state).
Defined.

(** X3: an element record with a [viewport] sub-record that has the four
    numeric fields [scrollX], [scrollY], [width] and [height] decodes to an
    element whose scroll state holds exactly these four values; without the
    sub-record the scroll state is unset and nothing else changes. *)
Theorem parse_node_viewport_info kvs (tag xp c : json) (vi : ViewportInfo) :
  is_text_kind kvs = false →
  dict_get "tagName" kvs = Some tag →
  dict_get "xpath" kvs = Some xp →
  dict_get "viewport" kvs = Some c →
  full_viewport c vi →
  optional_ok "viewportCoordinates" parse_coordinate_set kvs →
  optional_ok "pageCoordinates" parse_coordinate_set kvs →
  ∃ e ids, _parse_node (JObj kvs) = Return (Some (Element e), ids) ∧
    viewport_info e = Some vi ∧
    ∃ e', _parse_node (JObj (dict_delete "viewport" kvs))
            = Return (Some (Element e'), ids) ∧
          viewport_info e' = None ∧
          viewport_coordinates e' = viewport_coordinates e ∧
          page_coordinates e' = page_coordinates e ∧
          tag_name e' = tag_name e ∧ xpath e' = xpath e ∧
          attributes e' = attributes e ∧
          highlight_index e' = highlight_index e.
Proof.
  intros Hk Htag Hxp Hc Hfull [vc Hvc] [pc Hpc].
  assert (Hvi : parse_optional "viewport" parse_viewport_info kvs
                = Return (Some vi))
    by by eapply parse_optional_Some, parse_viewport_info_full.
  do 2 eexists. split.
  { apply parse_node_element; [by eapply dict_get_Some_nonempty | done |].
    by apply parse_element_Return. }
  simpl. split; [done|].
  eexists. split.
  - rewrite <-(dict_get_default_delete_ne kvs "viewport" "children") by done.
    apply parse_node_element.
    + apply (dict_get_Some_nonempty _ "tagName" tag).
      by rewrite dict_get_delete_ne.
    + by rewrite is_text_kind_delete.
    + apply parse_element_Return.
      * by rewrite parse_optional_delete_ne.
      * by rewrite parse_optional_delete_ne.
      * apply parse_optional_delete_eq.
      * by rewrite dict_get_delete_ne.
      * by rewrite dict_get_delete_ne.
  - simpl. by rewrite !dict_get_default_delete_ne.
Qed.

Lemma parse_node_viewport_info_witness :
  ∃ e ids, _parse_node scroll_record = Return (Some (Element e), ids) ∧
           viewport_info e = Some scroll_state.
Proof.
  destruct (parse_node_viewport_info scroll_fields (JStr "div")
              (JStr "/body/div") scroll_viewport scroll_state)
    as (e & ids & H & Hv & _); try reflexivity.
  - eexists. split; [reflexivity|]. repeat split.
  - by exists None.
  - by exists (Some box_geometry).
  - exists e, ids. split; [exact H | exact Hv].
Defined.

(** X4: a geometry sub-record is looked for by key, not by value.  A
    [viewportCoordinates] that is present but is not a mapping (null, say)
    makes the decoder raise [TypeError], and one that is a mapping without
    [topLeft] makes it raise [KeyError], in both cases before [tagName] is
    read. *)
Theorem parse_node_malformed_geometry kvs v :
  is_text_kind kvs = false →
  dict_get "viewportCoordinates" kvs = Some v →
  ((∀ c, v ≠ JObj c) → _parse_node (JObj kvs) = Raise TypeError) ∧
  (∀ c, v = JObj c → dict_get "topLeft" c = None →
        _parse_node (JObj kvs) = Raise (KeyError "topLeft")).
Proof.
  intros Hk Hv.
  assert (Hstart : ∀ err, parse_coordinate_set v = Raise err →
                          _parse_node (JObj kvs) = Raise err).
  { intros err Herr. unfold _parse_node.
    rewrite (truthy_dict _ (dict_get_Some_nonempty _ _ _ Hv)), Hk. simpl.
    unfold parse_element, parse_optional. by rewrite Hv, Herr. }
  split.
  - intros Hobj. apply Hstart.
    destruct v as [| | | | |c]; try done. by destruct (Hobj c).
  - intros c -> Hc. apply Hstart. unfold parse_coordinate_set.
    by rewrite (getitem_missing _ _ Hc).
Qed.

Lemma parse_node_malformed_geometry_witness :
  _parse_node (JObj [("xpath", JStr "/a"); ("viewportCoordinates", JNull)])
    = Raise TypeError ∧
  _parse_node (JObj [("viewportCoordinates", JObj [("width", JNum 3)])])
    = Raise (KeyError "topLeft").
Proof.
  split.
  - apply (parse_node_malformed_geometry
             [("xpath", JStr "/a"); ("viewportCoordinates", JNull)] JNull
             eq_refl eq_refl). discriminate.
  - apply (proj2 (parse_node_malformed_geometry
                    [("viewportCoordinates", JObj [("width", JNum 3)])]
                    (JObj [("width", JNum 3)]) eq_refl eq_refl)
                 [("width", JNum 3)] eq_refl eq_refl).
Defined.

End DecoderEdges.

(** * Further properties of the assembler *)

Section AssemblerEdges.

Implicit Types (st : state) (k s : string) (d id v : json) (a c : addr)
  (e : DOMElementNode) (n : DOMBaseNode) (items : list (string * json)).

Lemma parse_node_Some_truthy d n ids :
  _parse_node d = Return (Some n, ids) → truthy d = true.
Proof. unfold _parse_node. by destruct (truthy d). Qed.

Lemma diagnostics_of_snoc items k d :
  diagnostics_of (items ++ [(k, d)])
  = diagnostics_of items ++ (if truthy d then [] else [NodeIsNone k d]).
Proof.
  unfold diagnostics_of. rewrite filter_app, fmap_app. f_equal.
  rewrite filter_cons, filter_nil. simpl.
  by destruct (truthy d); simpl.
Qed.

(** What a run has stored and printed once it has gone through [done]. *)
Lemma assemble_store_and_output items st :
  assemble items = Return st →
  unlink <$> heap st = omap (λ kd, decoded kd.2) items ∧
  printed st = diagnostics_of items.
Proof.
  intros H.
  apply (for_each_invariant process_entry (λ _ _, True)
    (λ done st0, unlink <$> heap st0 = omap (λ kd, decoded kd.2) done ∧
                 printed st0 = diagnostics_of done))
    with (done := []) (xs := items) (s := initial_state) (s' := st);
    try done.
  clear. intros done [k d] st st' [Hheap Hout] _.
  intros [[Hp ->]|(n & ids & l & cs & Hp & _ & _ & ->)]%process_entry_Return;
    rewrite omap_app, diagnostics_of_snoc; simpl; unfold decoded; rewrite Hp.
  - apply parse_node_None in Hp as [-> _]. split.
    + by rewrite app_nil_r.
    + by rewrite Hout.
  - rewrite (parse_node_Some_truthy _ _ _ Hp), app_nil_r. split; [|done].
    rewrite fmap_app, Hheap. simpl. f_equal. f_equal. f_equal.
    rewrite unlink_with_children. apply (unlink_decoded d).
    unfold decoded. by rewrite Hp.
Qed.

(** The shape of the store of a run: map and child lists refer to nodes that
    exist, and a child is never younger than its holder. *)
Lemma assemble_shape items st :
  assemble items = Return st →
  (∀ k a, node_map st !! k = Some a → a < length (heap st)) ∧
  (∀ a n c, heap st !! a = Some n → c ∈ node_children n → c ≤ a).
Proof.
  intros H.
  apply (for_each_invariant process_entry (λ _ _, True)
    (λ _ st0,
       (∀ k a, node_map st0 !! k = Some a → a < length (heap st0)) ∧
       (∀ a n c, heap st0 !! a = Some n → c ∈ node_children n → c ≤ a)))
    with (done := []) (xs := items) (s := initial_state) (s' := st);
    try done.
  clear. intros _ [k d] st st' [Hmap Hkids] _.
  intros [[_ ->]|(n & ids & l & cs & Hp & _ & Hcs & ->)]%process_entry_Return;
    [done|]. simpl. split.
  - intros k' a. rewrite length_app. simpl.
    intros [[_ <-]|[_ ?%Hmap]]%lookup_insert_Some; lia.
  - intros a n' c [[_ Hn']|[-> <-]]%lookup_snoc_Some Hc.
    + by eapply Hkids.
    + destruct n as [e|t]; [|by apply elem_of_nil in Hc].
      simpl in Hc. apply list_elem_of_lookup in Hc as [i Hi].
      destruct (Forall2_lookup_r _ _ _ _ _ Hcs Hi)
        as (id & _ & s & _ & Hs).
      apply lookup_insert_Some in Hs as [[_ <-]|[_ ?%Hmap]]; lia.
Qed.

(** X5: the producer output is read by key.  Without [map] the function
    raises [KeyError] for it; with [map] but without [rootId] it raises
    [KeyError] for [rootId], before any record is decoded; with both, a [map]
    that is not a mapping makes it raise [AttributeError]; and an output that
    is itself no mapping makes it raise [TypeError]. *)
Theorem build_dom_tree_missing_keys :
  (∀ top, dict_get "map" top = None →
     _build_dom_tree (JObj top) = Raise (KeyError "map")) ∧
  (∀ top m, dict_get "map" top = Some m → dict_get "rootId" top = None →
     _build_dom_tree (JObj top) = Raise (KeyError "rootId")) ∧
  (∀ top m rid, dict_get "map" top = Some m →
     dict_get "rootId" top = Some rid → (∀ items, m ≠ JObj items) →
     _build_dom_tree (JObj top) = Raise AttributeError) ∧
  (∀ eval_page, (∀ top, eval_page ≠ JObj top) →
     _build_dom_tree eval_page = Raise TypeError).
Proof.
  unfold _build_dom_tree. repeat split.
  - intros top Hm. by rewrite (getitem_missing _ _ Hm).
  - intros top m Hm Hr. apply getitem_Return in Hm.
    by rewrite Hm, (getitem_missing _ _ Hr).
  - intros top m rid Hm Hr Hobj. apply getitem_Return in Hm, Hr.
    rewrite Hm, Hr. simpl.
    destruct m as [| | | | |items]; try done. by destruct (Hobj items).
  - intros eval_page Hobj.
    destruct eval_page as [| | | | |top]; try done. by destruct (Hobj top).
Qed.

(** X6: the default [[]] of [children] stands in for a missing key only.  An
    element record whose [children] is present but is null, a boolean or a
    number decodes, and then makes the run raise [TypeError] when the loop
    over its children starts, whatever entries follow. *)
Theorem non_iterable_children_raise pre k kvs post st v :
  assemble pre = Return st →
  is_text_kind kvs = false →
  returns (parse_element kvs) →
  dict_get "children" kvs = Some v →
  v = JNull ∨ (∃ b, v = JBool b) ∨ (∃ i, v = JNum i) →
  assemble (pre ++ (k, JObj kvs) :: post) = Raise TypeError.
Proof.
  intros Hpre Hk [e He] Hv Hshape.
  assert (Hstep : process_entry st (k, JObj kvs) = Raise TypeError).
  { unfold process_entry. cbn [fst snd].
    rewrite (parse_node_element kvs e);
      [| by eapply dict_get_Some_nonempty | done | done].
    cbn [mbind outcome_bind]. unfold dict_get_default. rewrite Hv.
    by destruct Hshape as [->|[[b ->]|[i ->]]]. }
  unfold assemble in *. rewrite for_each_app, Hpre. simpl. by rewrite Hstep.
Qed.

Lemma non_iterable_children_raise_witness :
  assemble [("1", hi_record);
            ("0", JObj [("tagName", JStr "body"); ("xpath", JStr "/body");
                        ("children", JNull)]);
            ("2", div_record)] = Raise TypeError.
Proof.
  apply (non_iterable_children_raise [("1", hi_record)] "0"
           [("tagName", JStr "body"); ("xpath", JStr "/body");
            ("children", JNull)] [("2", div_record)] _ JNull eq_refl eq_refl).
  - by eexists.
  - reflexivity.
  - by left.
Defined.

(** X7: assembling changes nothing in a node but its child list.  When the
    function returns, the store holds one node for each record that is not
    empty, in the order of the entries, and each of them is, its children
    apart, the node the decoder made of its record. *)
Theorem build_dom_tree_payloads (eval_page : json) st (root : addr) :
  _build_dom_tree eval_page = Return (st, root) →
  unlink <$> heap st = omap (λ kd, decoded kd.2) (entries eval_page).
Proof.
  intros (rid & _ & _ & Hasm & _)%build_dom_tree_Return.
  by apply assemble_store_and_output in Hasm as [? _].
Qed.

Lemma build_dom_tree_payloads_witness :
  ∃ st root, _build_dom_tree example_bottom_up = Return (st, root) ∧
    unlink <$> heap st
    = omap (λ kd, decoded kd.2) (entries example_bottom_up).
Proof.
  do 2 eexists. split; [reflexivity|].
  apply (build_dom_tree_payloads example_bottom_up _ 2). reflexivity.
Defined.

(** X8: when the function returns, what it has printed is exactly one
    "is None" line for each empty record, in the order of the entries; the
    line for a child that is not found is never among them. *)
Theorem build_dom_tree_output (eval_page : json) st (root : addr) :
  _build_dom_tree eval_page = Return (st, root) →
  printed st = diagnostics_of (entries eval_page) ∧
  ∀ s, ChildNotFound s ∉ printed st.
Proof.
  intros (rid & _ & _ & Hasm & _)%build_dom_tree_Return.
  apply assemble_store_and_output in Hasm as [_ Hout].
  split; [done|]. intros s. rewrite Hout. unfold diagnostics_of.
  by intros ([k d] & [=] & _)%list_elem_of_fmap.
Qed.

Lemma build_dom_tree_output_witness :
  ∃ st root,
    _build_dom_tree
      (JObj [("map", JObj [("1", hi_record); ("3", JNull); ("2", div_record);
                           ("0", body_record)]);
             ("rootId", JStr "0")]) = Return (st, root) ∧
    printed st = [NodeIsNone "3" JNull].
Proof.
  do 2 eexists. split; [reflexivity|].
  apply (build_dom_tree_output
           (JObj [("map", JObj [("1", hi_record); ("3", JNull);
                                ("2", div_record); ("0", body_record)]);
                  ("rootId", JStr "0")]) _ 2). reflexivity.
Defined.

End AssemblerEdges.

(** * Further properties of the tree and of the index *)

Section IndexEdges.

Context (h : list DOMBaseNode).
Implicit Types (a b c : addr) (e : DOMElementNode)
  (m : gmap (Z + string) addr) (key : Z + string).

Lemma record_handle_Return a e m m1 :
  record_handle a e m = Return m1 →
  (highlight_index e = JNull ∧ m1 = m) ∨
  (∃ key, highlight_index e ≠ JNull ∧
          handle_key (highlight_index e) = Some key ∧ m1 = <[key := a]> m).
Proof.
  unfold record_handle.
  destruct (highlight_index e) eqn:Hh; simpl; intros [= <-];
    first [by left | right; eexists; done].
Qed.

(** What a traversal that returns has recorded, whatever the handles are. *)
Lemma process_node_sound depth : ∀ a m m',
  process_node depth h a m = Return m' →
  (∀ key b, m' !! key = Some b →
            m !! key = Some b ∨ (in_tree h a b ∧ has_handle h b key)) ∧
  (∀ key, is_Some (m !! key) → is_Some (m' !! key)) ∧
  (∀ key b, in_tree h a b → has_handle h b key → is_Some (m' !! key)).
Proof.
  induction depth as [|depth IH]; intros a m m'; [done|].
  assert (Hloop : ∀ cs m1 m2,
    for_each (λ m0 child, process_node depth h child m0) cs m1 = Return m2 →
    (∀ key b, m2 !! key = Some b →
              m1 !! key = Some b ∨
              ∃ c, c ∈ cs ∧ in_tree h c b ∧ has_handle h b key) ∧
    (∀ key, is_Some (m1 !! key) → is_Some (m2 !! key)) ∧
    (∀ c key b, c ∈ cs → in_tree h c b → has_handle h b key →
                is_Some (m2 !! key))).
  { induction cs as [|c cs IHcs]; intros m1 m2; simpl.
    - intros [= <-]. split; [by left|]. split; [done|].
      by intros c key b ?%elem_of_nil.
    - intros (m3 & H3 & H)%bind_Return.
      apply IH in H3 as (Ha3 & Hb3 & Hc3).
      apply IHcs in H as (Ha & Hb & Hc).
      split; [|split].
      + intros key b [[?|[? ?]]%Ha3|(c' & ? & ? & ?)]%Ha; [by left|right..].
        * exists c. split; [by left|done].
        * exists c'. split; [by right|done].
      + intros key ?. by apply Hb, Hb3.
      + intros c' key b [->|?]%elem_of_cons ? ?.
        * eapply Hb, Hc3; done.
        * by eapply Hc. }
  simpl. destruct (h !! a) as [[e|t]|] eqn:Ha; [| |done].
  - intros (m1 & H1 & H)%bind_Return.
    apply Hloop in H as (Hin & Hkeep & Hall).
    apply record_handle_Return in H1 as [[Hnull ->]|(key0 & Hset & Hkey0 & ->)].
    + split; [|split].
      * intros key b [?|(c & ? & ? & ?)]%Hin; [by left|right].
        split; [by eapply in_tree_below|done].
      * done.
      * intros key b [->|(e' & c & He' & Hc & Hcb)]%in_tree_inv Hb.
        -- destruct Hb as (e' & He' & Hset & _). congruence.
        -- simplify_eq. by eapply Hall.
    + split; [|split].
      * intros key b [[[<- <-]|[_ ?]]%lookup_insert_Some|(c & ? & ? & ?)]%Hin.
        -- right. split; [apply in_tree_root | by exists e].
        -- by left.
        -- right. split; [by eapply in_tree_below|done].
      * intros key Hkey. apply Hkeep, lookup_insert_is_Some'. by right.
      * intros key b [->|(e' & c & He' & Hc & Hcb)]%in_tree_inv Hb.
        -- apply Hkeep, lookup_insert_is_Some'. left.
           destruct Hb as (e' & He' & _ & Hk'). congruence.
        -- simplify_eq. by eapply Hall.
  - intros [= <-]. split; [by left|]. split; [done|].
    intros key b [->|(e' & c & He' & _)]%in_tree_inv Hb; [|congruence].
    destruct Hb as (e' & He' & _). congruence.
Qed.

(** A traversal that returns has stayed within the depth it was given. *)
Lemma process_node_Return_fits depth : ∀ a m m',
  process_node depth h a m = Return m' → fits h depth a.
Proof.
  induction depth as [|depth IH]; intros a m m'; [done|].
  assert (Hloop : ∀ cs m1 m2,
    for_each (λ m0 child, process_node depth h child m0) cs m1 = Return m2 →
    ∀ c, c ∈ cs → fits h depth c).
  { induction cs as [|c cs IHcs]; intros m1 m2; simpl.
    - by intros _ c ?%elem_of_nil.
    - intros (m3 & H3 & H)%bind_Return c' [->|?]%elem_of_cons.
      + by eapply IH.
      + by eapply IHcs. }
  simpl. destruct (h !! a) as [[e|t]|] eqn:Ha; [| |done].
  - intros (m1 & _ & H)%bind_Return.
    eapply fits_element; [done|]. by eapply Hloop.
  - intros _. by eapply fits_text.
Qed.

(** With handles that can be hashed, a tree that fits is traversed without
    an exception. *)
Lemma process_node_fits_Return depth a :
  hashable_handles h → fits h depth a →
  ∀ m, ∃ m', process_node depth h a m = Return m'.
Proof.
  intros Hhash Hfits.
  induction Hfits as [depth a t Ht|depth a e He Hcs IHcs]; intros m; simpl.
  - rewrite Ht. by eexists.
  - rewrite He.
    assert (∃ m1, record_handle a e m = Return m1) as [m1 ->].
    { pose proof (Hhash a e He) as Hh. unfold record_handle.
      destruct (highlight_index e); simpl; try (by eexists);
        by destruct Hh as [?|[key ?]]. }
    simpl. clear He Hcs. revert m1.
    induction (children e) as [|c cs IH]; intros m1; simpl; [by eexists|].
    destruct (IHcs c ltac:(by left) m1) as [m2 ->]. simpl.
    apply IH. intros c' Hc'. apply IHcs. by right.
Qed.

(** What fits at a node fits at every node of its tree. *)
Lemma fits_in_tree depth a b :
  fits h depth a → in_tree h a b → fits h depth b.
Proof.
  intros Ha Hab. induction Hab as [|z e' y Hz IH He' Hy]; [done|].
  inversion IH as [? ? t Ht|i ? e'' He'' Hkids]; simplify_eq.
  apply (fits_mono h i); [by apply Hkids | lia].
Qed.

(** A node that is in the tree of one of its own children is too deep for
    every depth. *)
Lemma cyclic_not_fits a e c :
  h !! a = Some (Element e) → c ∈ children e → in_tree h c a →
  ∀ depth, ¬ fits h depth a.
Proof.
  intros He Hc Hca.
  induction depth as [|depth IH]; intros Hfits; [by inversion Hfits|].
  apply IH.
  inversion Hfits as [? ? t Ht|i ? e' He' Hkids]; simplify_eq.
  eapply fits_in_tree; [by apply Hkids | done].
Qed.

(** The traversal of a store without dangling references returns, or stops
    on the depth, or stops on a handle that cannot be hashed. *)
Lemma process_node_outcome depth : ∀ a m,
  no_dangling h → a < length h →
  returns (process_node depth h a m) ∨
  process_node depth h a m = Raise RecursionError ∨
  process_node depth h a m = Raise TypeError.
Proof.
  induction depth as [|depth IH]; intros a m Hclosed Ha; [by right; left|].
  simpl. destruct (lookup_lt_is_Some_2 h a Ha) as [[e|t] Hn]; rewrite Hn;
    [|by left; eexists].
  assert (Hkids : ∀ c, c ∈ children e → c < length h)
    by (intros c Hc; by eapply (Hclosed a (Element e))).
  destruct (record_handle a e m) as [m1| |] eqn:H1; simpl.
  - clear Hn H1. revert m1.
    induction (children e) as [|c cs IHcs]; intros m1; simpl;
      [by left; eexists|].
    destruct (IH c m1 Hclosed) as [[m2 ->]|[->| ->]];
      [apply Hkids; by left | | by right; left | by right; right].
    simpl. apply IHcs. intros c' Hc'. apply Hkids. by right.
  - right. right. f_equal. revert H1. unfold record_handle.
    destruct (highlight_index e); simpl; congruence.
  - revert H1. unfold record_handle. by destruct (highlight_index e).
Qed.

End IndexEdges.

Section TreeEdges.

Implicit Types (st : state) (k s : string) (d id v : json) (a b c : addr)
  (e : DOMElementNode) (n : DOMBaseNode) (items : list (string * json)).

Lemma get_clickable_elements_Return limit eval_page st ds :
  get_clickable_elements limit eval_page = Return (st, ds) ↔
  ∃ root m, _build_dom_tree eval_page = Return (st, root) ∧
            _create_selector_map limit (heap st) root = Return m ∧
            ds = {| element_tree := root; selector_map := m |}.
Proof.
  unfold get_clickable_elements. split.
  - intros ([st' root] & Hb & H)%bind_Return.
    apply bind_Return in H as (m & Hm & [= <- <-]). by exists root, m.
  - intros (root & m & -> & Hm & ->). simpl. by rewrite Hm.
Qed.

Lemma process_node_no_TypeError (h : list DOMBaseNode) depth : ∀ a m,
  hashable_handles h → process_node depth h a m ≠ Raise TypeError.
Proof.
  induction depth as [|depth IH]; intros a m Hhash; [done|]. simpl.
  destruct (h !! a) as [[e|t]|] eqn:Ha; [|done..].
  assert (∃ m1, record_handle a e m = Return m1) as [m1 ->].
  { pose proof (Hhash a e Ha) as Hh. unfold record_handle.
    destruct (highlight_index e); simpl; try (by eexists);
      by destruct Hh as [?|[key ?]]. }
  simpl. clear Ha. revert m1.
  induction (children e) as [|c cs IHcs]; intros m1; simpl; [done|].
  pose proof (IH c m1 Hhash) as Hc.
  destruct (process_node depth h c m1) as [m2|err|]; simpl; [apply IHcs|..];
    congruence.
Qed.

(** All falsy entries leave the store and the map as they were. *)
Lemma assemble_all_empty items : ∀ st,
  Forall (λ kd, truthy kd.2 = false) items →
  ∃ st', for_each process_entry items st = Return st' ∧
         heap st' = heap st ∧ node_map st' = node_map st.
Proof.
  induction items as [|[k d] items IH]; intros st Hall; simpl.
  - by exists st.
  - apply Forall_cons in Hall as [Hd Hall]. simpl in Hd.
    assert (process_entry st (k, d) = Return (print (NodeIsNone k d) st)) as ->.
    { apply process_entry_Return. left. split; [|done].
      by apply parse_node_None. }
    simpl. destruct (IH (print (NodeIsNone k d) st) Hall) as (st' & ? & ? & ?).
    by exists st'.
Qed.

(** X10: in the store of a run that returns, every reference stands: the
    root, the map and the child lists refer to nodes that exist, and a child
    was never decoded after the node that holds it, so that the only cycle a
    tree can have is a node that is its own child. *)
Theorem build_dom_tree_shape (eval_page : json) st (root : addr) :
  _build_dom_tree eval_page = Return (st, root) →
  root < length (heap st) ∧
  (∀ k a, node_map st !! k = Some a → a < length (heap st)) ∧
  no_dangling (heap st) ∧
  (∀ a n c, heap st !! a = Some n → c ∈ node_children n → c ≤ a).
Proof.
  intros (rid & _ & _ & Hasm & Hroot)%build_dom_tree_Return.
  apply assemble_shape in Hasm as [Hmap Hkids].
  apply resolve_root_Return in Hroot as (e & (s & _ & Hs) & _).
  split; [by eapply Hmap|]. split; [done|]. split; [|done].
  intros a n c Hn Hc. apply lookup_lt_Some in Hn as Ha.
  specialize (Hkids a n c Hn Hc). lia.
Qed.

Lemma build_dom_tree_shape_witness :
  ∃ st root, _build_dom_tree example_self_child = Return (st, root) ∧
    root < length (heap st) ∧ no_dangling (heap st) ∧
    (∀ a n c, heap st !! a = Some n → c ∈ node_children n → c ≤ a).
Proof.
  do 2 eexists. split; [reflexivity|].
  destruct (build_dom_tree_shape example_self_child _ 1 eq_refl)
    as (Hroot & _ & Hclosed & Hkids).
  split; [exact Hroot|]. split; [exact Hclosed | exact Hkids].
Defined.

(** X11: whatever the handles of the records are, the index that
    [get_clickable_elements] returns holds nothing but elements of the tree,
    each under its own handle, and it has an entry under every handle that is
    set on an element of the tree. *)
Theorem selector_map_sound limit (eval_page : json) st ds :
  get_clickable_elements limit eval_page = Return (st, ds) →
  (∀ key b, selector_map ds !! key = Some b →
            in_tree (heap st) (element_tree ds) b ∧
            has_handle (heap st) b key) ∧
  (∀ key b, in_tree (heap st) (element_tree ds) b →
            has_handle (heap st) b key →
            is_Some (selector_map ds !! key)).
Proof.
  intros (root & m & _ & Hm & ->)%get_clickable_elements_Return. simpl.
  apply process_node_sound in Hm as (Hin & _ & Hall). split.
  - intros key b [Hb|?]%Hin; [|done]. by rewrite lookup_empty in Hb.
  - done.
Qed.

Lemma selector_map_sound_witness :
  ∃ st ds,
    get_clickable_elements 5 example_shared_handle = Return (st, ds) ∧
    (∀ key b, selector_map ds !! key = Some b →
              in_tree (heap st) (element_tree ds) b ∧
              has_handle (heap st) b key) ∧
    (∀ key b, in_tree (heap st) (element_tree ds) b →
              has_handle (heap st) b key →
              is_Some (selector_map ds !! key)).
Proof.
  do 2 eexists. split; [reflexivity|].
  apply (selector_map_sound 5 example_shared_handle). reflexivity.
Defined.

(** X12: with handles that can be hashed, [_create_selector_map] returns
    exactly when the depth the interpreter allows covers the tree; a deeper
    tree makes it raise. *)
Theorem create_selector_map_returns_iff (h : list DOMBaseNode) limit
    (root : addr) :
  hashable_handles h →
  returns (_create_selector_map limit h root) ↔ fits h limit root.
Proof.
  intros Hhash. unfold _create_selector_map, returns. split.
  - intros [m Hm]. by eapply process_node_Return_fits.
  - intros Hfits. by apply process_node_fits_Return.
Qed.

Lemma create_selector_map_returns_iff_witness :
  (returns (_create_selector_map 2 example_store 2) ↔ fits example_store 2 2) ∧
  (returns (_create_selector_map 1 example_store 2) ↔ fits example_store 1 2).
Proof.
  assert (Hhash : hashable_handles example_store).
  { intros a e. destruct a as [|[|[|a]]]; intros [= <-]; simpl; eauto. }
  split; apply (create_selector_map_returns_iff example_store); exact Hhash.
Defined.

(** X13: a node that is its own child, as a record that lists its own key
    becomes, makes the tree too deep for every recursion limit: when such a
    node is in the tree, [get_clickable_elements] raises for every limit,
    [RecursionError] or, if it first meets a handle that cannot be hashed,
    [TypeError]. *)
Theorem self_child_never_indexed (eval_page : json) st (root a : addr) e :
  _build_dom_tree eval_page = Return (st, root) →
  in_tree (heap st) root a →
  heap st !! a = Some (Element e) → a ∈ children e →
  ∀ limit,
    (get_clickable_elements limit eval_page = Raise RecursionError ∨
     get_clickable_elements limit eval_page = Raise TypeError) ∧
    (hashable_handles (heap st) →
     get_clickable_elements limit eval_page = Raise RecursionError).
Proof.
  intros Hbuild Hin He Hself limit.
  destruct (build_dom_tree_shape _ _ _ Hbuild) as (Hroot & _ & Hclosed & _).
  unfold get_clickable_elements. rewrite Hbuild. simpl.
  unfold _create_selector_map.
  destruct (process_node_outcome (heap st) limit root ∅ Hclosed Hroot)
    as [[m Hm]|[Hraise|Hraise]].
  - exfalso. apply process_node_Return_fits in Hm.
    apply (cyclic_not_fits (heap st) a e a He Hself (in_tree_root _ _) limit).
    by eapply fits_in_tree.
  - rewrite Hraise. split; [by left | done].
  - rewrite Hraise. split; [by right|]. intros Hhash.
    by destruct (process_node_no_TypeError _ _ _ _ Hhash Hraise).
Qed.

Lemma self_child_never_indexed_witness :
  get_clickable_elements 50 example_self_child = Raise RecursionError ∨
  get_clickable_elements 50 example_self_child = Raise TypeError.
Proof.
  eapply (self_child_never_indexed example_self_child _ 1 1 _ eq_refl).
  - apply in_tree_root.
  - reflexivity.
  - right. left.
Defined.

End TreeEdges.

Section WholeCall.

Implicit Types (st : state) (k s : string) (d id v : json) (a b c : addr)
  (items : list (string * json)).

(** X14: a [map] with no entry, or with empty records only, leaves nothing
    to resolve the root in: the function raises [KeyError] for the root
    identifier, whatever that identifier is. *)
Theorem build_dom_tree_nothing_decoded top items (js_root_id : json) s :
  dict_get "map" top = Some (JObj items) →
  dict_get "rootId" top = Some js_root_id →
  Forall (λ kd, truthy kd.2 = false) items →
  py_str js_root_id = Return s →
  _build_dom_tree (JObj top) = Raise (KeyError s).
Proof.
  intros Hm Hr Hall Hs. unfold _build_dom_tree.
  apply getitem_Return in Hm, Hr. rewrite Hm, Hr. simpl. unfold assemble.
  destruct (assemble_all_empty items initial_state Hall)
    as (st & -> & _ & Hmap).
  simpl. unfold resolve_root. rewrite Hs. simpl.
  rewrite Hmap. cbn [initial_state node_map]. by rewrite lookup_empty.
Qed.

Lemma build_dom_tree_nothing_decoded_witness :
  _build_dom_tree (JObj [("map", JObj [("0", JObj []); ("1", JNull)]);
                         ("rootId", JNum 0)])
  = Raise (KeyError "0").
Proof.
  apply (build_dom_tree_nothing_decoded
           [("map", JObj [("0", JObj []); ("1", JNull)]); ("rootId", JNum 0)]
           [("0", JObj []); ("1", JNull)] (JNum 0) "0");
    try reflexivity.
  repeat constructor.
Defined.

Context {Page : Type}
  (evaluate : Page → string → json → Page * outcome json).

Lemma run_calls_snoc limit calls (call : bool * Z * Z)
    (self : DomService (Page := Page)) :
  run_calls evaluate limit (calls ++ [call]) self
  = (DomService_get_clickable_elements evaluate limit
       (run_calls evaluate limit calls self) call.1.1 call.1.2 call.2).1.
Proof. unfold run_calls. by rewrite foldl_app. Qed.

(** X15: the service keeps count and nothing else.  After any series of
    calls of [get_clickable_elements] on a new service, [_iter] is the number
    of calls made, whether they returned or raised, while [xpath_cache] is
    still empty and [js_code] is the text it was created with.  Each call
    asks the page once, with that text and its three arguments, and its
    result is that of assembling and indexing the page's answer: an
    exception of the page is passed on, and no earlier call has any
    influence. *)
Theorem service_counts_calls limit (calls : list (bool * Z * Z))
    (pg : Page) (resource : string) :
  let self := run_calls evaluate limit calls (__init__ pg resource) in
  _iter self = Z.of_nat (length calls) ∧
  xpath_cache self = [] ∧ js_code self = resource ∧
  ∀ highlight_elements focus_element viewport_expansion,
    let answer :=
      evaluate (page self) resource
        (evaluate_args highlight_elements focus_element viewport_expansion) in
    let call :=
      DomService_get_clickable_elements evaluate limit self
        highlight_elements focus_element viewport_expansion in
    page call.1 = answer.1 ∧
    _iter call.1 = (Z.of_nat (length calls) + 1)%Z ∧
    call.2 = (answer.2 ≫= get_clickable_elements limit).
Proof.
  induction calls as [|call calls IH] using rev_ind; simpl.
  - repeat split. unfold get_clickable_elements.
    by destruct (evaluate pg resource _).2.
  - destruct IH as (Hiter & Hcache & Hcode & _).
    rewrite run_calls_snoc. simpl. rewrite Hiter, Hcache, Hcode.
    rewrite length_app. simpl.
    split; [lia|]. split; [done|]. split; [done|].
    intros hl fe ve. split; [done|]. split; [lia|].
    unfold get_clickable_elements.
    by destruct (evaluate _ resource _).2.
Qed.

End WholeCall.
